(** * A shallow embedding of awee-ai/go-tokenizer

    The development follows the two Go packages of the repository:
    [codec] (the per-family codec values and the codec engine) and the
    top-level package (encoding identifiers, model tables, [Get],
    [ForModel], [Count]).

    Conventions.
    - Go [string] is [string] (a sequence of bytes), [uint]/[int] are [Z]
      with the 64-bit wrap-around written out ([uint], [int_add]).
    - Go [map[K]V] is [gmap K V].  A [range] over a map visits the entries
      in an order Go leaves unspecified: every loop over a map takes the
      visiting order as an explicit list that enumerates the map
      ([RangeOrder]).
    - A Go result [(T, error)] is [result T]. *)

From Stdlib Require Import ZArith String Ascii List Lia.
From Stdlib Require Import DecimalString Floats.
From stdpp Require Import gmap strings list fin_maps.

Local Open Scope Z_scope.

(** ** Go runtime pieces *)

(** [errors.New]: an error value is its message. *)
Inductive error : Type :=
| errors_New (msg : string).

(** A Go pair [(T, error)] with exactly one side set. *)
Inductive result (A : Type) : Type :=
| Ok (a : A)
| Err (e : error).
Arguments Ok {A} a.
Arguments Err {A} e.

(** Conversion to [uint] on a 64-bit target. *)
Definition uint (x : Z) : Z := x mod 2 ^ 64.

(** Range of a 64-bit [int], and [+] on [int]. *)
Definition int_wrap (x : Z) : Z := (x + 2 ^ 63) mod 2 ^ 64 - 2 ^ 63.
Definition int_add (a b : Z) : Z := int_wrap (a + b).
Infix "+i" := int_add (at level 50, left associativity).

(** [len(m)] of a map, an [int]. *)
Definition len {K V} `{Countable K} (m : gmap K V) : Z := Z.of_nat (size m).

(** [strings.HasPrefix(s, prefix)]. *)
Definition HasPrefix (s prefix : string) : bool := String.prefix prefix s.

(** The verb [%d] of [fmt.Sprintf] on an [int]. *)
Definition itoa (x : Z) : string := NilZero.string_of_int (Z.to_int x).

(** [for i := 0; i < n; i++ { s = body(i, s) }]. *)
Definition forRange {S : Type} (n : nat) (body : Z -> S -> S) (s : S) : S :=
  foldl (fun acc i => body (Z.of_nat i) acc) s (seq 0 n).

(** An order in which [range m] may visit the entries of the map [m]. *)
Definition RangeOrder {V} (m : gmap string V) (order : list (string * V)) : Prop :=
  order ≡ₚ map_to_list m.

(** [float64(count)] for a non-negative [int]. *)
Definition float64_of_int (count : Z) : float := PrimFloat.of_uint63 (Uint63.of_Z count).

(** [int(f)] on a [float64]: the fraction is discarded (truncation towards
    zero).  A value outside the range of [int] converts to the smallest
    [int], as the amd64 target does. *)
Definition int_of_float64 (f : float) : Z :=
  match Prim2SF f with
  | S754_zero _ => 0
  | S754_finite s m e =>
      let mag := if 0 <=? e then Z.pos m * 2 ^ e else Z.pos m / 2 ^ (- e) in
      let v := if s then - mag else mag in
      if (- 2 ^ 63 <=? v) && (v <? 2 ^ 63) then v else - 2 ^ 63
  | _ => - 2 ^ 63
  end.

(** ** Package codec *)
Module codec.

(** [type vocab map[string]uint]. *)
Abbreviation vocab := (gmap string Z).

(** The codec value: family name, vocabulary, the source of the compiled
    split pattern, special tokens. *)
Record Codec : Type := {
  name : string;
  vocabulary : vocab;
  splitRegexp : string;
  specialTokens : gmap string Z;
}.

Definition numReservedSpecialTokens : Z := 256.

Definition llamaPatStr : string :=
  "(?i:'s|'t|'re|'ve|'m|'ll|'d)|[^\r\n\p{L}\p{N}]?\p{L}+|\p{N}{1,3}| ?[^\s\p{L}\p{N}]+[\r\n]*|\s*[\r\n]+|\s+(?!\S)|\s+".

Definition gpt2PatStr : string :=
  "'s|'t|'re|'ve|'m|'ll|'d| ?\p{L}+| ?\p{N}+| ?[^\s\p{L}\p{N}]+|\s+(?!\S)|\s+".

(** What a family is made of besides its name. *)
Record family : Type := {
  familyVocab : vocab;
  familyPatStr : string;
  familySpecialTokens : gmap string Z;
}.

(** The parts of package codec that are generated or kept in files outside
    the sources at hand: the vocabulary tables [llamaVocab] and
    [gpt2BaseVocab], and the data of the five remaining families. *)
Record generated : Type := {
  llamaVocab : vocab;
  gpt2BaseVocab : vocab;
  o200kBase : family;
  cl100kBase : family;
  r50kBase : family;
  p50kBase : family;
  p50kEdit : family;
}.

(** The literal part of the LLaMA3 special-token map. *)
Definition llama3Defined (numBaseTokens : Z) : gmap string Z :=
  list_to_map [
    ("<|begin_of_text|>", uint numBaseTokens);
    ("<|end_of_text|>", uint (numBaseTokens +i 1));
    ("<|reserved_special_token_0|>", uint (numBaseTokens +i 2));
    ("<|reserved_special_token_1|>", uint (numBaseTokens +i 3));
    ("<|finetune_right_pad_id|>", uint (numBaseTokens +i 4));
    ("<|step_id|>", uint (numBaseTokens +i 5));
    ("<|start_header_id|>", uint (numBaseTokens +i 6));
    ("<|end_header_id|>", uint (numBaseTokens +i 7));
    ("<|eom_id|>", uint (numBaseTokens +i 8));
    ("<|eot_id|>", uint (numBaseTokens +i 9));
    ("<|python_tag|>", uint (numBaseTokens +i 10));
    ("<|image|>", uint (numBaseTokens +i 11))
  ].

(** The special-token map of [NewLLama3Base] for a vocabulary of
    [numBaseTokens] entries: the literal map, then the loop over the
    remaining reserved slots. *)
Definition llama3SpecialTokens (numBaseTokens : Z) : gmap string Z :=
  let specialTokens := llama3Defined numBaseTokens in
  let definedSpecialTokens := 12 in
  forRange (Z.to_nat (numReservedSpecialTokens - definedSpecialTokens))
    (fun i specialTokens =>
       let tokenName := "<|reserved_special_token_" +:+ itoa (2 +i i) +:+ "|>" in
       <[tokenName := uint (numBaseTokens +i definedSpecialTokens +i i)]> specialTokens)
    specialTokens.

Definition NewLLama3Base (G : generated) : Codec :=
  let splitRegexp := llamaPatStr in
  let numBaseTokens := len (llamaVocab G) in
  {| name := "llama";
     vocabulary := llamaVocab G;
     splitRegexp := splitRegexp;
     specialTokens := llama3SpecialTokens numBaseTokens |}.

Definition NewGPT2Base (G : generated) : Codec :=
  let splitRegexp := gpt2PatStr in
  let specialTokens : gmap string Z := list_to_map [("<|endoftext|>", 50256)] in
  {| name := "gpt2";
     vocabulary := gpt2BaseVocab G;
     splitRegexp := splitRegexp;
     specialTokens := specialTokens |}.

(** Modelled from the spec: the constructors [NewO200kBase], [NewCl100kBase],
    [NewR50kBase], [NewP50kBase] and [NewP50kEdit] are not among the sources.
    Each builds the configuration of its family, whose name is the family
    identifier; vocabulary, pattern and special tokens are the family's data. *)
Definition newFamily (id : string) (f : family) : Codec :=
  {| name := id;
     vocabulary := familyVocab f;
     splitRegexp := familyPatStr f;
     specialTokens := familySpecialTokens f |}.

Definition NewO200kBase (G : generated) : Codec := newFamily "o200k_base" (o200kBase G).
Definition NewCl100kBase (G : generated) : Codec := newFamily "cl100k_base" (cl100kBase G).
Definition NewR50kBase (G : generated) : Codec := newFamily "r50k_base" (r50kBase G).
Definition NewP50kBase (G : generated) : Codec := newFamily "p50k_base" (p50kBase G).
Definition NewP50kEdit (G : generated) : Codec := newFamily "p50k_edit" (p50kEdit G).

(** *** The codec engine

    The file of package codec that holds the methods [Encode], [Decode],
    [Count] and [GetName] and the merge loop is not among the sources.  The
    definitions below follow the design document: the vocabulary store
    (4.1), the splitter (4.2), the special-token recogniser (4.3), the merge
    engine (4.4) and the codec operations (4.5). *)

Global Instance result_ret : MRet result := fun _ a => Ok a.
Global Instance result_bind : MBind result := fun _ _ f r =>
  match r with
  | Ok a => f a
  | Err e => Err e
  end.

(** Modelled from the spec: the error values of the absent codec file, an
    encoding error and a decoding error (4.5). *)
Definition ErrEncoding : error := errors_New "encoding error".
Definition ErrDecoding : error := errors_New "decoding error".

(** The slices [s[:n]] and [s[n:]], clamped to the length of [s]. *)
Fixpoint stake (n : nat) (s : string) : string :=
  match n, s with
  | S n', String c s' => String c (stake n' s')
  | _, _ => ""
  end.

Fixpoint sdrop (n : nat) (s : string) : string :=
  match n, s with
  | S n', String c s' => sdrop n' s'
  | _, _ => s
  end.

(** Concatenation of byte sequences in order. *)
Definition joinAll (parts : list string) : string := foldr String.append "" parts.

(** Modelled from the spec: the vocabulary store (4.1) of the absent codec
    file.  [rankOf] is the forward mapping, [bytesOf] the inverse mapping
    built from the same pairs. *)
Definition rankOf (v : vocab) (s : string) : option Z := v !! s.

Definition inverse (m : gmap string Z) : gmap Z string :=
  list_to_map ((fun kv => (kv.2, kv.1)) <$> map_to_list m).

Definition bytesOf (v : vocab) (rank : Z) : option string := inverse v !! rank.

(** The pattern engine is a library outside the repository: [E pat s] is the
    length of the span that the pattern [pat] matches at the head of the
    unconsumed input [s], or the failure of the engine. *)
Definition engine : Type := string -> string -> result nat.

(** Modelled from the spec: the splitter (4.2) of the absent codec file.
    Each match against the remaining input is emitted as one chunk and
    consumes exactly the matched span; at most one step per input byte, so
    the iteration stops on every input. *)
Fixpoint splitLoop (E : engine) (pat : string) (fuel : nat) (text : string)
  : result (list string) :=
  match fuel with
  | O => Ok []
  | S fuel' =>
      if String.eqb text "" then Ok []
      else
        n ← E pat text;
        chunks ← splitLoop E pat fuel' (sdrop n text);
        Ok (stake n text :: chunks)
  end.

Definition split (E : engine) (pat : string) (text : string) : result (list string) :=
  splitLoop E pat (String.length text) text.

(** Modelled from the spec: the special-token recogniser (4.3) of the absent
    codec file.  A segment is a literal special token with its reserved id,
    or plain text. *)
Inductive segment : Type :=
| SpecialToken (literal : string) (id : Z)
| PlainText (text : string).

Definition longer (best : option (string * Z)) (kv : string * Z) : option (string * Z) :=
  match best with
  | Some (b, _) => if (String.length b <? String.length kv.1)%nat then Some kv else best
  | None => Some kv
  end.

(** The longest special literal (of at least one byte) at the head of [s]. *)
Definition longestSpecial (special : gmap string Z) (s : string) : option (string * Z) :=
  foldl longer None
    (List.filter (fun kv => negb (String.eqb kv.1 "") && String.prefix kv.1 s)
       (map_to_list special)).

Definition flush (plain : string) : list segment :=
  if String.eqb plain "" then [] else [PlainText plain].

(** Modelled from the spec: the recogniser (4.3) scans left to right and
    takes the longest special token at each position; [plain] is the plain
    text collected since the last special token. *)
Fixpoint recognizeLoop (special : gmap string Z) (fuel : nat) (plain s : string)
  : list segment :=
  match fuel, s with
  | S fuel', String c s' =>
      match longestSpecial special s with
      | Some (lit, id) =>
          flush plain ++
          SpecialToken lit id :: recognizeLoop special fuel' "" (sdrop (String.length lit) s)
      | None => recognizeLoop special fuel' (plain +:+ String c "") s'
      end
  | _, _ => flush plain
  end.

Definition recognize (special : gmap string Z) (text : string) : list segment :=
  recognizeLoop special (String.length text) "" text.

(** Modelled from the spec: the merge engine (4.4) of the absent codec file
    starts from the chunk as single-byte parts. *)
Fixpoint singletons (chunk : string) : list string :=
  match chunk with
  | "" => []
  | String c rest => String c "" :: singletons rest
  end.

(** Modelled from the spec: one scan (4.4) over the adjacent pairs from
    index [i] on gives the lowest rank among the pairs present in the
    vocabulary, with the index of its leftmost occurrence. *)
Fixpoint lowestPair (v : vocab) (parts : list string) (i : nat)
  (best : option (Z * nat)) : option (Z * nat) :=
  match parts with
  | a :: (b :: _) as rest =>
      let best' :=
        match rankOf v (a +:+ b) with
        | Some r =>
            match best with
            | Some (rb, _) => if r <? rb then Some (r, i) else best
            | None => Some (r, i)
            end
        | None => best
        end in
      lowestPair v rest (S i) best'
  | _ => best
  end.

(** Replace the pair at index [i] by its single merged part. *)
Fixpoint mergeAt (i : nat) (parts : list string) : list string :=
  match i, parts with
  | O, a :: b :: rest => (a +:+ b) :: rest
  | S i', a :: rest => a :: mergeAt i' rest
  | _, _ => parts
  end.

Fixpoint mergeLoop (v : vocab) (fuel : nat) (parts : list string) : list string :=
  match fuel with
  | O => parts
  | S fuel' =>
      match lowestPair v parts 0 None with
      | Some (_, i) => mergeLoop v fuel' (mergeAt i parts)
      | None => parts
      end
  end.

(** The final parts of a chunk: every merge removes one part, so the
    number of bytes bounds the number of rounds. *)
Definition mergeParts (v : vocab) (chunk : string) : list string :=
  mergeLoop v (String.length chunk) (singletons chunk).

(** Modelled from the spec: [merge] (4.4) of the absent codec file, the rank
    of each final part, left to right. *)
Definition merge (v : vocab) (chunk : string) : option (list Z) :=
  mapM (rankOf v) (mergeParts v chunk).

(** Modelled from the spec: the method [GetName] (4.5) of the absent codec
    file, the family identifier. *)
Definition GetName (c : Codec) : string := name c.

(** Modelled from the spec: [Encode] (4.5) of the absent codec file merges
    each chunk and looks up the final ranks; [tokens] are the parts the ids
    stand for. *)
Fixpoint encodeChunks (v : vocab) (chunks : list string) : result (list Z * list string) :=
  match chunks with
  | [] => Ok ([], [])
  | chunk :: rest =>
      match merge v chunk with
      | None => Err ErrEncoding
      | Some ranks =>
          '(ids, tokens) ← encodeChunks v rest;
          Ok (ranks ++ ids, mergeParts v chunk ++ tokens)
      end
  end.

Definition encodeSegment (E : engine) (c : Codec) (seg : segment)
  : result (list Z * list string) :=
  match seg with
  | SpecialToken lit id => Ok ([id], [lit])
  | PlainText text =>
      chunks ← split E (splitRegexp c) text;
      encodeChunks (vocabulary c) chunks
  end.

Fixpoint encodeSegments (E : engine) (c : Codec) (segs : list segment)
  : result (list Z * list string) :=
  match segs with
  | [] => Ok ([], [])
  | seg :: rest =>
      '(ids1, tokens1) ← encodeSegment E c seg;
      '(ids2, tokens2) ← encodeSegments E c rest;
      Ok (ids1 ++ ids2, tokens1 ++ tokens2)
  end.

(** Modelled from the spec: the method [Encode] (4.5) of the absent codec
    file: recognise special tokens, split each plain segment, merge each
    chunk, concatenate in the original order. *)
Definition Encode (E : engine) (c : Codec) (text : string) : result (list Z * list string) :=
  encodeSegments E c (recognize (specialTokens c) text).

(** Modelled from the spec: [Decode] (4.5) of the absent codec file looks up
    an id below the rank ceiling in the inverse vocabulary; an id of a
    special token gives its literal. *)
Definition decodeId (c : Codec) (id : Z) : option string :=
  match (if id <? len (vocabulary c) then bytesOf (vocabulary c) id else None) with
  | Some s => Some s
  | None => inverse (specialTokens c) !! id
  end.

(** Modelled from the spec: the method [Decode] (4.5) of the absent codec
    file concatenates the byte sequences of the ids in order and fails on an
    id without a mapping. *)
Fixpoint Decode (c : Codec) (ids : list Z) : result string :=
  match ids with
  | [] => Ok ""
  | id :: rest =>
      match decodeId c id with
      | None => Err ErrDecoding
      | Some s => out ← Decode c rest; Ok (s +:+ out)
      end
  end.

(** Modelled from the spec: [Count] (4.5) of the absent codec file walks the
    same segments and chunks and adds up the numbers of final parts; no id
    is looked up or stored. *)
Fixpoint countChunks (v : vocab) (chunks : list string) : Z :=
  match chunks with
  | [] => 0
  | chunk :: rest => Z.of_nat (length (mergeParts v chunk)) + countChunks v rest
  end.

Definition countSegment (E : engine) (c : Codec) (seg : segment) : result Z :=
  match seg with
  | SpecialToken _ _ => Ok 1
  | PlainText text =>
      chunks ← split E (splitRegexp c) text;
      Ok (countChunks (vocabulary c) chunks)
  end.

Fixpoint countSegments (E : engine) (c : Codec) (segs : list segment) : result Z :=
  match segs with
  | [] => Ok 0
  | seg :: rest =>
      n1 ← countSegment E c seg;
      n2 ← countSegments E c rest;
      Ok (n1 + n2)
  end.

(** Modelled from the spec: the method [Count] (4.5) of the absent codec
    file. *)
Definition Count (E : engine) (c : Codec) (text : string) : result Z :=
  countSegments E c (recognize (specialTokens c) text).

(** Modelled from the spec: the invariants of the vocabulary (section 3):
    every single byte is an entry, ranks are unique and dense from 0. *)
Record VocabularyOk (v : vocab) : Prop := {
  single_byte_floor : forall c : ascii, is_Some (v !! String c "");
  ranks_unique : forall s1 s2 r, v !! s1 = Some r -> v !! s2 = Some r -> s1 = s2;
  ranks_dense : forall s r, v !! s = Some r -> 0 <= r < len v;
}.

(** Modelled from the spec: the invariants of the special-token table
    (section 3): ids are above all ranks, from [len(vocabulary)] on, one
    literal per id. *)
Record SpecialTokensOk (v : vocab) (special : gmap string Z) : Prop := {
  special_above : forall s id, special !! s = Some id -> len v <= id;
  special_unique :
    forall s1 s2 id, special !! s1 = Some id -> special !! s2 = Some id -> s1 = s2;
}.

(** Modelled from the spec: the pattern always matches at least one byte
    when any remain (4.2). *)
Definition PatternProgress (E : engine) (pat : string) : Prop :=
  forall s, s <> "" -> exists n, E pat s = Ok n /\ (1 <= n)%nat.

End codec.

(** ** Package tokenizer *)

Definition ErrModelNotSupported : error := errors_New "model not supported".
Definition ErrEncodingNotSupported : error := errors_New "encoding not supported".

Abbreviation Codec := codec.Codec.
Abbreviation Model := string (only parsing).
Abbreviation Encoding := string (only parsing).

Definition O1 : Model := "o1".
Definition O1Preview : Model := "o1-preview".
Definition O1Mini : Model := "o1-mini".
Definition O3 : Model := "o3".
Definition O3Mini : Model := "o3-mini".
Definition O4Mini : Model := "o4-mini".
Definition GPT41 : Model := "gpt-4.1".
Definition GPT4o : Model := "gpt-4o".
Definition GPT4 : Model := "gpt-4".
Definition GPT35Turbo : Model := "gpt-3.5-turbo".
Definition GPT35 : Model := "gpt-3.5".
Definition TextEmbeddingAda002 : Model := "text-embedding-ada-002".
Definition TextDavinci003 : Model := "text-davinci-003".
Definition TextDavinci002 : Model := "text-davinci-002".
Definition CodeDavinci002 : Model := "code-davinci-002".
Definition CodeDavinci001 : Model := "code-davinci-001".
Definition CodeCushman002 : Model := "code-cushman-002".
Definition CodeCushman001 : Model := "code-cushman-001".
Definition DavinciCodex : Model := "davinci-codex".
Definition CushmanCodex : Model := "cushman-codex".
Definition TextDavinci001 : Model := "text-davinci-001".
Definition TextCurie001 : Model := "text-curie-001".
Definition TextBabbage001 : Model := "text-babbage-001".
Definition TextAda001 : Model := "text-ada-001".
Definition Davinci : Model := "davinci".
Definition Curie : Model := "curie".
Definition Babbage : Model := "babbage".
Definition Ada : Model := "ada".
Definition TextSimilarityDavinci001 : Model := "text-similarity-davinci-001".
Definition TextSimilarityCurie001 : Model := "text-similarity-curie-001".
Definition TextSimilarityBabbage001 : Model := "text-similarity-babbage-001".
Definition TextSimilarityAda001 : Model := "text-similarity-ada-001".
Definition TextSearchDavinciDoc001 : Model := "text-search-davinci-doc-001".
Definition TextSearchCurieDoc001 : Model := "text-search-curie-doc-001".
Definition TextSearchAdaDoc001 : Model := "text-search-ada-doc-001".
Definition TextSearchBabbageDoc001 : Model := "text-search-babbage-doc-001".
Definition CodeSearchBabbageCode001 : Model := "code-search-babbage-code-001".
Definition CodeSearchAdaCode001 : Model := "code-search-ada-code-001".
Definition TextDavinciEdit001 : Model := "text-davinci-edit-001".
Definition CodeDavinciEdit001 : Model := "code-davinci-edit-001".

Definition R50kBase : Encoding := "r50k_base".
Definition P50kBase : Encoding := "p50k_base".
Definition P50kEdit : Encoding := "p50k_edit".
Definition Cl100kBase : Encoding := "cl100k_base".
Definition O200kBase : Encoding := "o200k_base".
Definition OllamaLlamaBase : Encoding := "llama".
Definition AnthropicBase : Encoding := "cl100k_base".

Definition deepSeekModels : gmap string Encoding :=
  list_to_map [
    ("deepseek-r1", R50kBase);
    ("deepseek-v3", R50kBase);
    ("deepseek-v2.5", R50kBase);
    ("deepseek-v2", R50kBase);
    ("deepseek-coder-v2", R50kBase);
    ("deepseek-coder", R50kBase);
    ("deepseek-llm", R50kBase);
    ("deepcoder", R50kBase);
    ("deepscaler", R50kBase)
  ].

Definition definitiveTokenizerFamilies : gmap string Encoding :=
  list_to_map [
    ("gpt-5", O200kBase);
    ("o1-", O200kBase);
    ("o3-", O200kBase);
    ("o4-", O200kBase);
    ("chatgpt-4o-", O200kBase);
    ("gpt-4.1-", O200kBase);
    ("gpt-4o-", O200kBase);
    ("gpt-4-", Cl100kBase);
    ("gpt-3.5-turbo-", Cl100kBase);
    ("gpt-35-turbo-", Cl100kBase);
    ("ft:gpt-4", Cl100kBase);
    ("ft:gpt-3.5-turbo", Cl100kBase);
    ("ft:davinci-002", Cl100kBase);
    ("ft:babbage-002", Cl100kBase)
  ].

Definition llamaModels : gmap string Encoding :=
  list_to_map [
    ("llama3.1", OllamaLlamaBase);
    ("llama3.2", OllamaLlamaBase);
    ("llama3.3", OllamaLlamaBase);
    ("llama3", OllamaLlamaBase);
    ("llama4", OllamaLlamaBase);
    ("llama2", R50kBase);
    ("codellama", R50kBase);
    ("llama2-uncensored", R50kBase);
    ("llama2-chinese", R50kBase)
  ].

Definition qwenModels : gmap string Encoding :=
  list_to_map [
    ("qwen3", R50kBase);
    ("qwen2.5vl", R50kBase);
    ("qwen2.5", R50kBase);
    ("qwen2.5-coder", R50kBase);
    ("qwen", R50kBase);
    ("qwen2", R50kBase);
    ("qwen2-math", R50kBase);
    ("qwq", R50kBase);
    ("codeqwen", R50kBase)
  ].

Definition claudeModels : gmap string Encoding :=
  list_to_map [
    ("claude-2.0", Cl100kBase);
    ("claude-2.1", Cl100kBase);
    ("claude-3-opus-", AnthropicBase);
    ("claude-3-sonnet-", AnthropicBase);
    ("claude-3-5-sonnet-", AnthropicBase);
    ("claude-3-haiku-", AnthropicBase);
    ("claude-3-5-haiku-", AnthropicBase);
    ("claude-3-7-sonnet-", AnthropicBase);
    ("claude-opus-4", AnthropicBase);
    ("claude-sonnet-4", AnthropicBase)
  ].

Definition mistralModels : gmap string Encoding :=
  list_to_map [
    ("mistral", R50kBase);
    ("mistral-nemo", R50kBase);
    ("mistral-small", R50kBase);
    ("mistral-small3.1", R50kBase);
    ("mistral-small3.2", R50kBase);
    ("mistral-large", R50kBase);
    ("mistral-openorca", R50kBase);
    ("mistrallite", R50kBase);
    ("mathstral", R50kBase);
    ("codestral", R50kBase);
    ("devstral", R50kBase);
    ("mixtral", R50kBase)
  ].

Definition gemmaModels : gmap string Encoding :=
  list_to_map [
    ("gemma3n", R50kBase);
    ("gemma3", R50kBase);
    ("gemma2", R50kBase);
    ("gemma", R50kBase);
    ("codegemma", R50kBase)
  ].

Definition phiModels : gmap string Encoding :=
  list_to_map [
    ("phi3", OllamaLlamaBase);
    ("phi4", R50kBase);
    ("phi4-mini", R50kBase);
    ("phi4-reasoning", R50kBase);
    ("phi4-mini-reasoning", R50kBase);
    ("phi3.5", R50kBase);
    ("phi", R50kBase)
  ].

Definition visionModels : gmap string Encoding :=
  list_to_map [
    ("llava", R50kBase);
    ("llava-llama3", OllamaLlamaBase);
    ("llava-phi3", R50kBase);
    ("minicpm-v", R50kBase);
    ("llama3.2-vision", OllamaLlamaBase);
    ("bakllava", R50kBase);
    ("moondream", R50kBase);
    ("granite3.2-vision", R50kBase)
  ].

Definition graniteModels : gmap string Encoding :=
  list_to_map [
    ("granite-code", R50kBase);
    ("granite3.3", R50kBase);
    ("granite3.2", R50kBase);
    ("granite3.1-dense", R50kBase);
    ("granite3.1-moe", R50kBase);
    ("granite3-dense", R50kBase);
    ("granite3-moe", R50kBase);
    ("granite3-guardian", R50kBase);
    ("granite-embedding", R50kBase)
  ].

Definition smallModels : gmap string Encoding :=
  list_to_map [
    ("smollm2", R50kBase);
    ("smollm", R50kBase);
    ("tinyllama", R50kBase);
    ("phi", R50kBase);
    ("tinydolphin", R50kBase)
  ].

Definition embeddingModels : gmap string Encoding :=
  list_to_map [
    ("nomic-embed-text", R50kBase);
    ("mxbai-embed-large", R50kBase);
    ("bge-m3", R50kBase);
    ("snowflake-arctic-embed", R50kBase);
    ("snowflake-arctic-embed2", R50kBase);
    ("all-minilm", R50kBase);
    ("bge-large", R50kBase);
    ("paraphrase-multilingual", R50kBase)
  ].

Definition derivedModels : gmap string Encoding :=
  list_to_map [
    ("dolphin3", OllamaLlamaBase);
    ("dolphin-mixtral", R50kBase);
    ("dolphin-mistral", R50kBase);
    ("dolphin-llama3", OllamaLlamaBase);
    ("dolphincoder", R50kBase);
    ("dolphin-phi", R50kBase);
    ("hermes3", OllamaLlamaBase);
    ("nous-hermes2", R50kBase);
    ("nous-hermes2-mixtral", R50kBase);
    ("nous-hermes", R50kBase);
    ("openhermes", R50kBase);
    ("wizardlm2", R50kBase);
    ("wizardlm", R50kBase);
    ("wizardlm-uncensored", R50kBase);
    ("wizardcoder", R50kBase);
    ("wizard-math", R50kBase);
    ("wizard-vicuna-uncensored", R50kBase);
    ("wizard-vicuna", R50kBase)
  ].

Definition fallbackModels : gmap string Encoding :=
  list_to_map [
    ("starcoder2", R50kBase);
    ("starcoder", R50kBase);
    ("orca-mini", R50kBase);
    ("orca2", R50kBase);
    ("yi", R50kBase);
    ("yi-coder", R50kBase);
    ("zephyr", R50kBase);
    ("command-r", R50kBase);
    ("command-r-plus", R50kBase);
    ("command-r7b", R50kBase);
    ("command-r7b-arabic", R50kBase);
    ("command-a", R50kBase);
    ("vicuna", R50kBase);
    ("openchat", R50kBase);
    ("olmo2", R50kBase);
    ("dbrx", R50kBase);
    ("falcon", R50kBase);
    ("falcon2", R50kBase);
    ("falcon3", R50kBase);
    ("solar", R50kBase);
    ("solar-pro", R50kBase);
    ("stablelm2", R50kBase);
    ("stablelm-zephyr", R50kBase);
    ("stable-code", R50kBase);
    ("stable-beluga", R50kBase);
    ("sqlcoder", R50kBase);
    ("reflection", OllamaLlamaBase);
    ("starling-lm", R50kBase);
    ("xwinlm", R50kBase);
    ("phind-codellama", R50kBase);
    ("internlm2", R50kBase);
    ("yarn-llama2", R50kBase);
    ("yarn-mistral", R50kBase);
    ("nexusraven", R50kBase);
    ("shieldgemma", R50kBase);
    ("everythinglm", R50kBase);
    ("codeup", R50kBase);
    ("duckdb-nsql", R50kBase);
    ("magicoder", R50kBase);
    ("codebooga", R50kBase);
    ("bespoke-minicheck", R50kBase);
    ("tulu3", OllamaLlamaBase);
    ("nuextract", R50kBase);
    ("megadolphin", R50kBase);
    ("notux", R50kBase);
    ("open-orca-platypus2", R50kBase);
    ("notus", R50kBase);
    ("goliath", R50kBase);
    ("alfred", R50kBase);
    ("neural-chat", R50kBase);
    ("samantha-mistral", R50kBase);
    ("athene-v2", R50kBase);
    ("nemotron-mini", R50kBase);
    ("nemotron", OllamaLlamaBase);
    ("opencoder", R50kBase);
    ("exaone3.5", R50kBase);
    ("exaone-deep", R50kBase);
    ("aya", R50kBase);
    ("aya-expanse", R50kBase);
    ("smallthinker", R50kBase);
    ("sailor2", R50kBase);
    ("firefunction-v2", OllamaLlamaBase);
    ("codegeex4", R50kBase);
    ("glm4", R50kBase);
    ("meditron", R50kBase);
    ("medllama2", R50kBase);
    ("reader-lm", R50kBase);
    ("r1-1776", R50kBase);
    ("marco-o1", R50kBase);
    ("openthinker", R50kBase);
    ("magistral", R50kBase);
    ("cogito", R50kBase)
  ].

(** One [for k, v := range table { result[k] = v }] of
    [buildModelPrefixToEncoding], visiting [table] in [order]. *)
Definition mergeInto (order : list (string * Encoding)) (result : gmap string Encoding)
  : gmap string Encoding :=
  foldl (fun result kv => <[kv.1 := kv.2]> result) result order.

(** The tables in the order in which [buildModelPrefixToEncoding] adds them. *)
Definition priorityTables : list (gmap string Encoding) :=
  [ definitiveTokenizerFamilies; claudeModels; deepSeekModels; llamaModels;
    qwenModels; mistralModels; gemmaModels; phiModels; visionModels;
    graniteModels; smallModels; embeddingModels; derivedModels; fallbackModels ].

Definition buildModelPrefixToEncoding : gmap string Encoding :=
  foldl (fun result table => mergeInto (map_to_list table) result) ∅ priorityTables.

Definition modelPrefixToEncoding : gmap string Encoding := buildModelPrefixToEncoding.

Definition Get (G : codec.generated) (encoding : Encoding) : result Codec :=
  if String.eqb encoding O200kBase then Ok (codec.NewO200kBase G)
  else if String.eqb encoding Cl100kBase then Ok (codec.NewCl100kBase G)
  else if String.eqb encoding R50kBase then Ok (codec.NewR50kBase G)
  else if String.eqb encoding P50kBase then Ok (codec.NewP50kBase G)
  else if String.eqb encoding P50kEdit then Ok (codec.NewP50kEdit G)
  else if String.eqb encoding OllamaLlamaBase then Ok (codec.NewLLama3Base G)
  else Err ErrEncodingNotSupported.

(** The [case] clauses of the [switch] in [ForModel], in order: the labels
    of a clause and the encoding it passes to [Get]. *)
Definition exactCases : list (list Model * Encoding) :=
  [ ([O1; O1Preview; O1Mini; GPT41; GPT4o; O3; O3Mini; O4Mini], O200kBase);
    ([GPT4; GPT35; GPT35Turbo; TextEmbeddingAda002], Cl100kBase);
    ([TextDavinci003; TextDavinci002; CodeDavinci001;
      CodeDavinci002; CodeCushman002; CodeCushman001;
      DavinciCodex; CushmanCodex], P50kBase);
    ([TextDavinci001; TextCurie001; TextBabbage001; TextAda001; Davinci;
      Curie; Babbage; Ada; TextSimilarityDavinci001; TextSimilarityCurie001;
      TextSimilarityBabbage001; TextSimilarityAda001; TextSearchDavinciDoc001;
      TextSearchCurieDoc001; TextSearchAdaDoc001; TextSearchBabbageDoc001;
      CodeSearchBabbageCode001; CodeSearchAdaCode001], R50kBase);
    ([TextDavinciEdit001; CodeDavinciEdit001], P50kEdit) ].

(** The clause a [switch] over [cases] selects for [model], if any. *)
Fixpoint switchCase (cases : list (list Model * Encoding)) (model : Model)
  : option Encoding :=
  match cases with
  | [] => None
  | (labels, enc) :: rest =>
      if existsb (String.eqb model) labels then Some enc else switchCase rest model
  end.

(** The [default] clause of [ForModel]: the loop over
    [modelPrefixToEncoding], visited in [order]; the first entry whose key
    is a prefix of the model returns. *)
Fixpoint prefixLoop (G : codec.generated) (order : list (string * Encoding))
  (model : Model) : result Codec :=
  match order with
  | [] => Err ErrModelNotSupported
  | (prefix, enc) :: rest =>
      if HasPrefix model prefix then Get G enc else prefixLoop G rest model
  end.

(** [ForModel] when the map is visited in [order]. *)
Definition ForModelIn (G : codec.generated) (order : list (string * Encoding))
  (model : Model) : result Codec :=
  match switchCase exactCases model with
  | Some enc => Get G enc
  | None => prefixLoop G order model
  end.

(** [ForModel model] may return [r]: some visiting order of the prefix map
    makes it do so. *)
Definition ForModel (G : codec.generated) (model : Model) (r : result Codec) : Prop :=
  exists order, RangeOrder modelPrefixToEncoding order /\ ForModelIn G order model = r.

(** The loop over [Ratios] in [Count], visited in [order]: the first entry
    whose key is a prefix of the model scales the count and ends the loop. *)
Fixpoint ratioLoop (order : list (string * float)) (model : Model) (count : Z) : Z :=
  match order with
  | [] => count
  | (prefix, ratio) :: rest =>
      if HasPrefix model prefix
      then int_of_float64 (float64_of_int count * ratio)
      else ratioLoop rest model count
  end.

(** [Count] when the prefix map is visited in [order] and [Ratios] in
    [ratios].  The codec's pattern engine is [E]. *)
Definition CountIn (E : codec.engine) (G : codec.generated)
  (order : list (string * Encoding)) (ratios : list (string * float))
  (model : Model) (input : string) : result Z :=
  match ForModelIn G order model with
  | Err err => Err err
  | Ok enc =>
      match codec.Count E enc input with
      | Err err => Err err
      | Ok count => Ok (ratioLoop ratios model count)
      end
  end.

(** [Count model input] may return [r].  The table [Ratios] is declared in a
    file outside the sources at hand and enters as a parameter. *)
Definition Count (E : codec.engine) (G : codec.generated) (Ratios : gmap string float)
  (model : Model) (input : string) (r : result Z) : Prop :=
  exists order ratios,
    RangeOrder modelPrefixToEncoding order /\ RangeOrder Ratios ratios /\
    CountIn E G order ratios model input = r.

(** The model constants of the [const] block, in its order. *)
Definition declaredModels : list Model :=
  [ O1; O1Preview; O1Mini; O3; O3Mini; O4Mini; GPT41; GPT4o; GPT4; GPT35Turbo; GPT35;
    TextEmbeddingAda002; TextDavinci003; TextDavinci002; CodeDavinci002;
    CodeDavinci001; CodeCushman002; CodeCushman001; DavinciCodex; CushmanCodex;
    TextDavinci001; TextCurie001; TextBabbage001; TextAda001; Davinci; Curie;
    Babbage; Ada; TextSimilarityDavinci001; TextSimilarityCurie001;
    TextSimilarityBabbage001; TextSimilarityAda001; TextSearchDavinciDoc001;
    TextSearchCurieDoc001; TextSearchAdaDoc001; TextSearchBabbageDoc001;
    CodeSearchBabbageCode001; CodeSearchAdaCode001; TextDavinciEdit001;
    CodeDavinciEdit001 ].

(** The six identifiers [Get] has a clause for. *)
Definition supportedEncodings : list Encoding :=
  [O200kBase; Cl100kBase; R50kBase; P50kBase; P50kEdit; OllamaLlamaBase].

(** The first entry of [order] whose key is a prefix of [model]. *)
Fixpoint firstPrefix {V} (order : list (string * V)) (model : Model) : option (string * V) :=
  match order with
  | [] => None
  | (prefix, v) :: rest =>
      if HasPrefix model prefix then Some (prefix, v) else firstPrefix rest model
  end.

(** ** More Go runtime pieces *)

(** The line feed and the double quote, as one-byte strings. *)
Definition nl : string := String "010"%char "".
Definition dquote : string := String "034"%char "".

(** [strings.Contains(s, substr)]. *)
Fixpoint Contains (s substr : string) : bool :=
  HasPrefix s substr ||
  match s with
  | "" => false
  | String _ rest => Contains rest substr
  end.

(** [strings.Cut(s, sep)] for a separator of one byte: the text before and
    after its first occurrence.  [strings.SplitN(s, sep, 2)] has two parts
    exactly when the cut is found, and they are these. *)
Fixpoint cutByte (sep : ascii) (s : string) : option (string * string) :=
  match s with
  | "" => None
  | String c rest =>
      if Ascii.eqb c sep then Some ("", rest)
      else
        match cutByte sep rest with
        | Some (before, after) => Some (String c before, after)
        | None => None
        end
  end.

(** The message of an error value. *)
Definition Error (err : error) : string :=
  match err with
  | errors_New msg => msg
  end.

(** ** The tests of package tokenizer *)
Module tokenizer_test.

(** The interface [tokenizer.Codec]: a value with the four methods. *)
Record Codec : Type := {
  GetName : string;
  Count : string -> result Z;
  Encode : string -> result (list Z * list string);
  Decode : list Z -> result string;
}.

Record testCase : Type := {
  text : string;
  ids : list Z;
}.

(** The loop of [sliceEqual] from index [i] on.  [b[i]] panics when [i] is
    out of range: [None]. *)
Fixpoint sliceEqualLoop (i : nat) (a b : list Z) : option bool :=
  match a with
  | [] => Some true
  | elem :: rest =>
      match b !! i with
      | None => None
      | Some x => if negb (elem =? x) then Some false else sliceEqualLoop (S i) rest b
      end
  end.

Definition sliceEqual (a b : list Z) : option bool :=
  if negb (Z.of_nat (length a) =? Z.of_nat (length b)) then Some false
  else sliceEqualLoop 0 a b.

(** What a subtest of [runTests] reports: [t.Fatalf] reports and ends the
    subtest, [t.Errorf] reports and goes on. *)
Inductive report : Type :=
| errorEncoding (err : error)
| encodingMismatch (want got : list Z)
| errorDecoding (err : error)
| decodingMismatch (want got : string)
| errorCounting (err : error)
| countMismatch (want got : Z)
| indexOutOfRange.

(** The body of the subtest that [runTests] runs for one test case. *)
Definition subtest (tok : Codec) (test : testCase) : list report :=
  match Encode tok (text test) with
  | Err err => [errorEncoding err]
  | Ok (got, _) =>
      match sliceEqual got (ids test) with
      | None => [indexOutOfRange]
      | Some same =>
          let r1 := if negb same then [encodingMismatch (ids test) got] else [] in
          match Decode tok got with
          | Err err => r1 ++ [errorDecoding err]
          | Ok decoded =>
              let r2 := if negb (String.eqb decoded (text test))
                        then [decodingMismatch (text test) decoded] else [] in
              match Count tok (text test) with
              | Err err => r1 ++ r2 ++ [errorCounting err]
              | Ok count =>
                  let r3 := if negb (count =? Z.of_nat (length (ids test)))
                            then [countMismatch (Z.of_nat (length (ids test))) count]
                            else [] in
                  r1 ++ r2 ++ r3
              end
          end
      end
  end.

Definition runTests (tok : Codec) (tests : list testCase) : list (list report) :=
  subtest tok <$> tests.

(** The loop of [readEnvFile] over the lines the scanner delivers.
    [TrimSpace] is [strings.TrimSpace]. *)
Fixpoint readEnvLoop (TrimSpace : string -> string) (lines : list string)
  (env : gmap string string) : result (gmap string string) :=
  match lines with
  | [] => Ok env
  | raw :: rest =>
      let line := TrimSpace raw in
      if String.eqb line "" || HasPrefix line "#" then readEnvLoop TrimSpace rest env
      else
        match cutByte "=" line with
        | None => Err (errors_New ("invalid line in env file: " +:+ line))
        | Some (key, value) => readEnvLoop TrimSpace rest (<[key := value]> env)
        end
  end.

(** [readEnvFile].  [open path] is what opening and scanning the file gives:
    the failure of [os.Open], or the lines read and the error the scanner
    stopped on, if any. *)
Definition readEnvFile (TrimSpace : string -> string)
  (open : string -> result (list string * option error)) (path : string)
  : result (gmap string string) :=
  match open path with
  | Err err => Err (errors_New ("failed to open env file: " +:+ Error err))
  | Ok (lines, scanErr) =>
      match readEnvLoop TrimSpace lines ∅ with
      | Err err => Err err
      | Ok env =>
          match scanErr with
          | Some err => Err (errors_New ("error reading env file: " +:+ Error err))
          | None => Ok env
          end
      end
  end.

End tokenizer_test.

(** ** The vocabulary generator (package main) *)
Module vocab.

Definition packageName : string := "codec".

Record config : Type := {
  url : string;
  mapName : string;
  filename : string;
}.

(** A run that returns, or ends the process through [log.Fatal] with a
    message. *)
Inductive run (A : Type) : Type :=
| Returns (a : A)
| Fatal (msg : string).
Arguments Returns {A} a.
Arguments Fatal {A} msg.

Global Instance run_ret : MRet run := fun _ a => Returns a.
Global Instance run_bind : MBind run := fun _ _ f r =>
  match r with
  | Returns a => f a
  | Fatal msg => Fatal msg
  end.

Definition getConfig (encoding : string) : run config :=
  if String.eqb encoding "o200k_base" then
    Returns {| mapName := "o200kBaseVocab";
               url := "https://openaipublic.blob.core.windows.net/encodings/o200k_base.tiktoken";
               filename := "o200k_base_vocab.go" |}
  else if String.eqb encoding "cl100k_base" then
    Returns {| mapName := "cl100kBaseVocab";
               url := "https://openaipublic.blob.core.windows.net/encodings/cl100k_base.tiktoken";
               filename := "cl100k_base_vocab.go" |}
  else if String.eqb encoding "r50k_base" then
    Returns {| mapName := "r50kBaseVocab";
               url := "https://openaipublic.blob.core.windows.net/encodings/r50k_base.tiktoken";
               filename := "r50k_base_vocab.go" |}
  else if String.eqb encoding "p50k_base" then
    Returns {| mapName := "p50kBaseVocab";
               url := "https://openaipublic.blob.core.windows.net/encodings/p50k_base.tiktoken";
               filename := "p50k_base_vocab.go" |}
  else if String.eqb encoding "llama" then
    Returns {| mapName := "llamaBaseVocab";
               url := "https://raw.githubusercontent.com/meta-llama/llama-models/refs/heads/main/models/llama3/tokenizer.model";
               filename := "llama_base_vocab.go" |}
  else if String.eqb encoding "gpt2" then
    Returns {| mapName := "gpt2BaseVocab";
               url := "https://openaipublic.blob.core.windows.net/encodings/r50k_base.tiktoken";
               filename := "gpt2_base_vocab.go" |}
  else if String.eqb encoding "anthropic" then
    Returns {| mapName := "anthropicVocab";
               url := "file:internal/anthropic/anthropic.tiktoken";
               filename := "anthropic_base_vocab.go" |}
  else Fatal "config not found".

(** What [generatePreamble] writes. *)
Definition generatePreamble (encoding : string) : string :=
  "// Code generated by internal/cmd/vocab.go. DO NOT EDIT." +:+ nl +:+ nl +:+
  "//go:generate go run ../internal/cmd/vocab.go -encoding " +:+ encoding +:+ nl +:+ nl +:+
  "package " +:+ packageName +:+ nl.

(** The library functions the generator calls on each line:
    [base64.StdEncoding.DecodeString], [strconv.ParseUint(_, 10, 0)] and the
    verb [%q] of package fmt. *)
Record library : Type := {
  DecodeString : string -> option string;
  ParseUint : string -> option Z;
  quote : string -> string;
}.

(** The scanning loop of [generateVocabulary]: what it writes for the lines
    the scanner delivers.  [first] is the flag of the same name. *)
Fixpoint scanLoop (L : library) (first : bool) (lines : list string) : run string :=
  match lines with
  | [] => Returns ""
  | line :: rest =>
      if first && Contains line "#version" then scanLoop L false rest
      else
        match cutByte " " line with
        | None => Fatal ("invalid line: " +:+ quote L line)
        | Some (wordInput, idInput) =>
            match DecodeString L wordInput with
            | None => Fatal ("invalid word: " +:+ quote L wordInput)
            | Some word =>
                match ParseUint L idInput with
                | None => Fatal ("invalid id: " +:+ quote L idInput)
                | Some id =>
                    out ← scanLoop L first rest;
                    Returns (quote L word +:+ ": " +:+ itoa id +:+ "," +:+ nl +:+ out)
                end
            end
        end
  end.

(** [generateVocabulary].  [openFile] and [httpGet] give the lines the
    scanner delivers from the opened file or from the body of the response,
    or the error of opening or fetching. *)
Definition generateVocabulary (L : library)
  (openFile httpGet : string -> result (list string))
  (mapName uri : string) : run string :=
  lines ← (if HasPrefix uri "file:"
           then match openFile (codec.sdrop 5 uri) with
                | Err err => Fatal ("error opening file: " +:+ Error err)
                | Ok lines => Returns lines
                end
           else match httpGet uri with
                | Err err => Fatal ("error fetching file: " +:+ Error err)
                | Ok lines => Returns lines
                end);
  entries ← scanLoop L true lines;
  Returns ("import " +:+ dquote +:+ "sync" +:+ dquote +:+ nl +:+
           "var (" +:+ nl +:+
           mapName +:+ " vocab" +:+ nl +:+
           mapName +:+ "Once sync.Once" +:+ nl +:+
           ")" +:+ nl +:+
           "func " +:+ mapName +:+ "Init() {" +:+ nl +:+
           mapName +:+ " = vocab{" +:+ nl +:+
           entries +:+
           "}" +:+ nl +:+ "}" +:+ nl).

End vocab.

(** ** Notions used in the statements *)

(** The id of the slot at offset [k] above a vocabulary of [n] entries. *)
Definition slot (n k : Z) : Z := uint (n + k).

(** A part that has a rank in the vocabulary [v]. *)
Definition ranked (v : codec.vocab) (part : string) : Prop := is_Some (codec.rankOf v part).

(** The text a segment stands for. *)
Definition segmentText (seg : codec.segment) : string :=
  match seg with
  | codec.SpecialToken lit _ => lit
  | codec.PlainText text => text
  end.

(** A special segment carries the id of its literal. *)
Definition segmentOk (special : gmap string Z) (seg : codec.segment) : Prop :=
  match seg with
  | codec.SpecialToken lit id => special !! lit = Some id
  | codec.PlainText _ => True
  end.

(** [Count] reports what [Encode] reports: the number of ids, or the same
    failure. *)
Definition countAgrees (enc : result (list Z * list string)) (cnt : result Z) : Prop :=
  match enc with
  | Ok (ids, _) => cnt = Ok (Z.of_nat (length ids))
  | Err e => cnt = Err e
  end.

(** A line of the vocabulary source that gives the entry [(word, id)]. *)
Definition parsesTo (L : vocab.library) (line : string) (entry : string * Z) : Prop :=
  exists wordInput idInput,
    cutByte " " line = Some (wordInput, idInput) /\
    vocab.DecodeString L wordInput = Some entry.1 /\
    vocab.ParseUint L idInput = Some entry.2.

(** The line that [generateVocabulary] writes for an entry. *)
Definition entryLine (L : vocab.library) (entry : string * Z) : string :=
  vocab.quote L entry.1 +:+ ": " +:+ itoa entry.2 +:+ "," +:+ nl.

(** The name of the numbered reserved slot [k]. *)
Definition reservedName (k : Z) : string :=
  "<|reserved_special_token_" +:+ itoa k +:+ "|>".

(** The offset of the numbered reserved slot [k] above the vocabulary: the
    slots 0 and 1 are literal entries, the others are written by the loop. *)
Definition reservedOffset (k : Z) : Z := if k <? 2 then 2 + k else 10 + k.




(** ** Sample data, used to instantiate the statements below *)

(** Every byte as a one-byte entry ranked by its code, and three merges. *)
Definition sampleVocab : codec.vocab :=
  list_to_map
    (((fun i => (String (ascii_of_nat i) "", Z.of_nat i)) <$> seq 0 256) ++
     [("he", 256); ("ll", 257); ("hell", 258)]).

Definition sampleFamily : codec.family :=
  {| codec.familyVocab := sampleVocab;
     codec.familyPatStr := codec.gpt2PatStr;
     codec.familySpecialTokens := {[ "<|endoftext|>" := 259 ]} |}.

Definition sampleGenerated : codec.generated :=
  {| codec.llamaVocab := sampleVocab;
     codec.gpt2BaseVocab := sampleVocab;
     codec.o200kBase := sampleFamily;
     codec.cl100kBase := sampleFamily;
     codec.r50kBase := sampleFamily;
     codec.p50kBase := sampleFamily;
     codec.p50kEdit := sampleFamily |}.

(** A sample table of ratios. *)
Definition sampleRatios : gmap string float := {[ "claude-" := 1.5%float ]}.

(** A pattern engine that cuts before every space. *)
Fixpoint untilSpace (s : string) : nat :=
  match s with
  | "" => 0
  | String c rest => if Ascii.eqb c " " then 0 else S (untilSpace rest)
  end.

Definition sampleEngine : codec.engine :=
  fun _ s =>
    match s with
    | "" => Ok 0%nat
    | String _ rest => Ok (S (untilSpace rest))
    end.

(** The codec value behind the interface, with its pattern engine. *)
Definition asInterface (E : codec.engine) (c : Codec) : tokenizer_test.Codec :=
  {| tokenizer_test.GetName := codec.GetName c;
     tokenizer_test.Count := codec.Count E c;
     tokenizer_test.Encode := codec.Encode E c;
     tokenizer_test.Decode := codec.Decode c |}.

(** Sample library functions for the generator: a decoder that accepts
    every word but the empty one, and a parser of decimal digits. *)
Fixpoint sampleDigits (acc : Z) (s : string) : option Z :=
  match s with
  | "" => Some acc
  | String c rest =>
      let d := Z.of_nat (nat_of_ascii c) - 48 in
      if (0 <=? d) && (d <=? 9) then sampleDigits (10 * acc + d) rest else None
  end.

Definition sampleLibrary : vocab.library :=
  {| vocab.DecodeString := fun s => if String.eqb s "" then None else Some s;
     vocab.ParseUint := fun s => if String.eqb s "" then None else sampleDigits 0 s;
     vocab.quote := fun s => dquote +:+ s +:+ dquote |}.

(** ** Facts about the Go runtime pieces *)

Lemma append_cons c (s t : string) : String c s +:+ t = String c (s +:+ t).
Proof. reflexivity. Qed.

Lemma append_nil_l (s : string) : "" +:+ s = s.
Proof. reflexivity. Qed.

Lemma HasPrefix_spec s prefix :
  HasPrefix s prefix = true <-> exists rest, s = prefix +:+ rest.
Proof.
  unfold HasPrefix. revert s. induction prefix as [|c p IH]; intros s; simpl.
  - destruct s; split; eauto.
  - destruct s as [|c' s]; simpl.
    + split; [discriminate | intros [rest Hr]; rewrite append_cons in Hr; discriminate].
    + destruct (ascii_dec c c') as [->|Hne].
      * rewrite IH. split; intros [rest Hr]; exists rest;
          rewrite append_cons in *; congruence.
      * split; [discriminate | intros [rest Hr]; rewrite append_cons in Hr; congruence].
Qed.

Lemma RangeOrder_elem {V} (m : gmap string V) order k v :
  RangeOrder m order -> (k, v) ∈ order <-> m !! k = Some v.
Proof. unfold RangeOrder. intros Hp. rewrite Hp. apply elem_of_map_to_list. Qed.

Lemma RangeOrder_map_to_list {V} (m : gmap string V) : RangeOrder m (map_to_list m).
Proof. unfold RangeOrder. reflexivity. Qed.

Lemma RangeOrder_reverse {V} (m : gmap string V) : RangeOrder m (reverse (map_to_list m)).
Proof. unfold RangeOrder. apply reverse_Permutation. Qed.

Lemma firstPrefix_Some {V} (order : list (string * V)) model prefix v :
  firstPrefix order model = Some (prefix, v) ->
  (prefix, v) ∈ order /\ HasPrefix model prefix = true.
Proof.
  induction order as [|[p w] rest IH]; simpl; [discriminate|].
  destruct (HasPrefix model p) eqn:Hp.
  - intros [= -> ->]. split; [left | assumption].
  - intros Hf. destruct (IH Hf) as [Hin Hpre]. split; [by right | assumption].
Qed.

Lemma firstPrefix_None {V} (order : list (string * V)) model :
  firstPrefix order model = None <->
  forall prefix v, (prefix, v) ∈ order -> HasPrefix model prefix = false.
Proof.
  induction order as [|[p w] rest IH]; simpl.
  - split; [intros _ ? ? Hin; inversion Hin | done].
  - destruct (HasPrefix model p) eqn:Hp.
    + split; [discriminate|]. intros Hall.
      assert (HasPrefix model p = false) by (apply (Hall p w); left). congruence.
    + rewrite IH. split.
      * intros Hall prefix v Hin. apply elem_of_cons in Hin as [[= -> ->]|Hin]; eauto.
      * intros Hall prefix v Hin. apply (Hall prefix v). by right.
Qed.

(** ** Facts about the selector [Get] *)

(** Case analysis on the next string comparison of a [switch]. *)
Ltac case_switch :=
  match goal with
  | |- context [String.eqb ?a ?b] => destruct (String.eqb_spec a b) as [->|?]
  end.

Lemma Get_supported G encoding c :
  Get G encoding = Ok c ->
  encoding ∈ supportedEncodings /\ codec.name c = encoding.
Proof.
  unfold Get, supportedEncodings.
  repeat (case_switch;
          [intros Hc; injection Hc as <-;
           split; [apply list_elem_of_In; simpl; tauto | reflexivity] |]).
  discriminate.
Qed.

Lemma Get_unsupported G encoding :
  encoding ∉ supportedEncodings -> Get G encoding = Err ErrEncodingNotSupported.
Proof.
  unfold Get, supportedEncodings. intros Hn.
  repeat (case_switch;
          [exfalso; apply Hn; apply list_elem_of_In; simpl; tauto |]).
  reflexivity.
Qed.

(** ** Facts about model resolution *)

Lemma prefixLoop_firstPrefix G order model :
  prefixLoop G order model =
  match firstPrefix order model with
  | Some (_, enc) => Get G enc
  | None => Err ErrModelNotSupported
  end.
Proof.
  induction order as [|[p e] rest IH]; simpl; [reflexivity|].
  destruct (HasPrefix model p); [reflexivity | apply IH].
Qed.

(** The merge loop gives the same map in whatever order it visits the
    table: the entries of the table over those of [result]. *)
Lemma mergeInto_union (l : list (string * string)) (result : gmap string string) :
  NoDup (l.*1) -> mergeInto l result = list_to_map l ∪ result.
Proof.
  unfold mergeInto. revert result.
  induction l as [|[k v] l IH]; intros result Hnd; simpl.
  - by rewrite (left_id_L ∅ (∪)).
  - apply NoDup_cons in Hnd as [Hk Hnd]. rewrite IH by assumption.
    rewrite <- insert_union_l. symmetry. apply insert_union_r.
    by apply not_elem_of_list_to_map_1.
Qed.

Lemma mergeInto_RangeOrder (table result : gmap string string) order :
  RangeOrder table order -> mergeInto order result = table ∪ result.
Proof.
  unfold RangeOrder. intros Hp. rewrite mergeInto_union.
  - f_equal. rewrite <- (list_to_map_to_list table).
    apply list_to_map_proper; [|exact Hp].
    rewrite Hp. apply NoDup_fst_map_to_list.
  - rewrite Hp. apply NoDup_fst_map_to_list.
Qed.

Lemma switchCase_exactCases labels enc model :
  (labels, enc) ∈ exactCases -> model ∈ labels ->
  switchCase exactCases model = Some enc.
Proof.
  intros Hc Hm.
  assert (Hall : forallb (fun le : list Model * Encoding =>
            forallb (fun m => bool_decide (switchCase exactCases m = Some le.2)) le.1)
            exactCases = true) by (vm_compute; reflexivity).
  rewrite forallb_forall in Hall.
  apply list_elem_of_In in Hc. specialize (Hall _ Hc). simpl in Hall.
  rewrite forallb_forall in Hall.
  apply list_elem_of_In in Hm. specialize (Hall _ Hm).
  by apply bool_decide_eq_true_1 in Hall.
Qed.

(** C6 -- A model identifier that is a label of a clause of the exact-match
    tier resolves to the encoding of that clause, whatever the prefix table
    holds and in whatever order it is visited: the prefix loop runs only
    when no clause matches. *)
Theorem ForModel_exact_match_tier G labels enc model :
  (labels, enc) ∈ exactCases -> model ∈ labels ->
  (forall order, ForModelIn G order model = Get G enc) /\
  (forall r, ForModel G model r <-> r = Get G enc) /\
  (forall order model', switchCase exactCases model' = None ->
     ForModelIn G order model' = prefixLoop G order model').
Proof.
  intros Hc Hm. pose proof (switchCase_exactCases _ _ _ Hc Hm) as Hs.
  assert (Hin : forall order, ForModelIn G order model = Get G enc).
  { intros order. unfold ForModelIn. by rewrite Hs. }
  split; [exact Hin | split].
  - intros r. split.
    + intros (order & _ & <-). apply Hin.
    + intros ->. exists (map_to_list modelPrefixToEncoding).
      split; [apply RangeOrder_map_to_list | apply Hin].
  - intros order model' Hn. unfold ForModelIn. by rewrite Hn.
Qed.

(** The identifier "o1-mini" is a label of the first clause and also starts
    with a key of a prefix table that names another family. *)
Lemma ForModel_exact_match_tier_witness :
  ForModelIn sampleGenerated [("o1-", R50kBase)] O1Mini = Get sampleGenerated O200kBase.
Proof.
  refine (proj1 (ForModel_exact_match_tier sampleGenerated
            [O1; O1Preview; O1Mini; GPT41; GPT4o; O3; O3Mini; O4Mini] O200kBase O1Mini _ _) _).
  - apply list_elem_of_here.
  - apply list_elem_of_In. simpl. tauto.
Defined.

(** A check run over the entries of a map holds of every binding. *)
Lemma map_forallb {V} (m : gmap string V) (P : string -> V -> bool) :
  forallb (fun kv => P kv.1 kv.2) (map_to_list m) = true ->
  forall k v, m !! k = Some v -> P k v = true.
Proof.
  intros Hall k v Hk. rewrite forallb_forall in Hall.
  apply elem_of_map_to_list, list_elem_of_In in Hk. exact (Hall _ Hk).
Qed.

(** Evaluate a closed subterm of the goal. *)
Ltac evaluate t :=
  let v := eval vm_compute in t in
  replace t with v by (vm_compute; reflexivity).

Lemma ForModelIn_default G order model :
  switchCase exactCases model = None ->
  ForModelIn G order model =
  match firstPrefix order model with
  | Some (_, enc) => Get G enc
  | None => Err ErrModelNotSupported
  end.
Proof. intros Hs. unfold ForModelIn. rewrite Hs. apply prefixLoop_firstPrefix. Qed.

Lemma ForModel_unresolvable G model :
  switchCase exactCases model = None ->
  (forall prefix enc,
     modelPrefixToEncoding !! prefix = Some enc -> HasPrefix model prefix = false) ->
  forall r, ForModel G model r <-> r = Err ErrModelNotSupported.
Proof.
  intros Hs Hnone.
  assert (Hin : forall order, RangeOrder modelPrefixToEncoding order ->
                  ForModelIn G order model = Err ErrModelNotSupported).
  { intros order Ho. rewrite ForModelIn_default by assumption.
    replace (firstPrefix order model) with (@None (string * string)); [reflexivity|].
    symmetry. apply firstPrefix_None. intros prefix enc Hin.
    apply (Hnone prefix enc). by apply (RangeOrder_elem _ order). }
  intros r. split.
  - intros (order & Ho & <-). by apply Hin.
  - intros ->. exists (map_to_list modelPrefixToEncoding).
    split; [apply RangeOrder_map_to_list | apply Hin, RangeOrder_map_to_list].
Qed.

(** C7 -- Configuration errors are the failure result of the operation.
    [Get] returns a codec for each of the six supported identifiers and the
    error "encoding not supported", without a codec, for every other
    identifier.  [ForModel] returns the error "model not supported", without
    a codec, for every identifier that no clause of the exact-match tier
    and no key of the prefix table resolves. *)
Theorem configuration_errors G :
  (forall encoding, encoding ∈ supportedEncodings -> exists c, Get G encoding = Ok c) /\
  (forall encoding, encoding ∉ supportedEncodings ->
     Get G encoding = Err ErrEncodingNotSupported) /\
  (forall model,
     switchCase exactCases model = None ->
     (forall prefix enc,
        modelPrefixToEncoding !! prefix = Some enc -> HasPrefix model prefix = false) ->
     forall r, ForModel G model r <-> r = Err ErrModelNotSupported).
Proof.
  split; [|split].
  - intros encoding Hin. apply list_elem_of_In in Hin. simpl in Hin.
    destruct Hin as [<-|[<-|[<-|[<-|[<-|[<-|[]]]]]]]; eexists; reflexivity.
  - apply Get_unsupported.
  - apply ForModel_unresolvable.
Qed.

Lemma no_prefix_of (model : Model) :
  firstPrefix (map_to_list modelPrefixToEncoding) model = None ->
  forall prefix enc,
    modelPrefixToEncoding !! prefix = Some enc -> HasPrefix model prefix = false.
Proof.
  intros Hf prefix enc Hk.
  apply (proj1 (firstPrefix_None _ _) Hf prefix enc). by apply elem_of_map_to_list.
Qed.

(** "gpt2" is not a supported identifier, and no tier resolves
    "gemini-1.5-pro". *)
Lemma configuration_errors_witness :
  (exists c, Get sampleGenerated "llama" = Ok c) /\
  Get sampleGenerated "gpt2" = Err ErrEncodingNotSupported /\
  ForModel sampleGenerated "gemini-1.5-pro" (Err ErrModelNotSupported).
Proof.
  destruct (configuration_errors sampleGenerated) as (Hok & Hbad & Hmodel).
  split; [|split].
  - apply Hok. apply list_elem_of_In. simpl. tauto.
  - apply Hbad. intros Hin. apply list_elem_of_In in Hin. simpl in Hin.
    repeat destruct Hin as [Hin|Hin]; try discriminate Hin. exact Hin.
  - apply (Hmodel "gemini-1.5-pro").
    + vm_compute. reflexivity.
    + apply no_prefix_of. vm_compute. reflexivity.
    + reflexivity.
Defined.

(** C9 -- [AnthropicBase] is the same string as [Cl100kBase], so
    [Get AnthropicBase] succeeds with the Cl100k codec; every key of the
    Claude table, and every key of the merged prefix table that starts with
    "claude", maps to the Cl100k encoding. *)
Theorem AnthropicBase_is_Cl100kBase G :
  AnthropicBase = "cl100k_base" /\
  AnthropicBase = Cl100kBase /\
  Get G AnthropicBase = Ok (codec.NewCl100kBase G) /\
  (forall prefix enc, claudeModels !! prefix = Some enc -> enc = Cl100kBase) /\
  (forall prefix enc,
     modelPrefixToEncoding !! prefix = Some enc -> HasPrefix prefix "claude" = true ->
     enc = Cl100kBase /\ claudeModels !! prefix = Some enc /\
     Get G enc = Ok (codec.NewCl100kBase G)).
Proof.
  split; [reflexivity | split; [reflexivity | split; [reflexivity | split]]].
  - intros prefix enc Hk.
    apply (map_forallb claudeModels (fun _ v => String.eqb v Cl100kBase)) in Hk;
      [by apply String.eqb_eq in Hk | vm_compute; reflexivity].
  - intros prefix enc Hk Hp.
    apply (map_forallb modelPrefixToEncoding
             (fun k v => implb (HasPrefix k "claude")
                           (String.eqb v Cl100kBase &&
                            bool_decide (claudeModels !! k = Some v)))) in Hk;
      [|vm_compute; reflexivity].
    rewrite Hp in Hk. simpl in Hk. apply andb_prop in Hk as [He Hc].
    apply String.eqb_eq in He. apply bool_decide_eq_true_1 in Hc.
    subst enc. split; [reflexivity | split; [assumption | reflexivity]].
Qed.

Lemma Get_Ok_cases G encoding c :
  Get G encoding = Ok c ->
  c ∈ [codec.NewO200kBase G; codec.NewCl100kBase G; codec.NewR50kBase G;
       codec.NewP50kBase G; codec.NewP50kEdit G; codec.NewLLama3Base G].
Proof.
  unfold Get.
  repeat (case_switch;
          [intros Hc; injection Hc as <-; apply list_elem_of_In; simpl; tauto |]).
  discriminate.
Qed.

(** C10 -- A codec returned by [Get] is the codec of one of the six families
    o200k_base, cl100k_base, r50k_base, p50k_base, p50k_edit and llama.  The
    codec built by [NewGPT2Base], named "gpt2" and with the special token
    "<|endoftext|>" = 50256, is never returned. *)
Theorem Get_never_returns_GPT2 G encoding c :
  Get G encoding = Ok c ->
  codec.GetName c ∈
    ["o200k_base"; "cl100k_base"; "r50k_base"; "p50k_base"; "p50k_edit"; "llama"] /\
  c ∈ [codec.NewO200kBase G; codec.NewCl100kBase G; codec.NewR50kBase G;
       codec.NewP50kBase G; codec.NewP50kEdit G; codec.NewLLama3Base G] /\
  codec.GetName (codec.NewGPT2Base G) = "gpt2" /\
  codec.specialTokens (codec.NewGPT2Base G) !! "<|endoftext|>" = Some 50256 /\
  c <> codec.NewGPT2Base G.
Proof.
  intros Hget. destruct (Get_supported _ _ _ Hget) as [Hin Hname].
  split; [|split; [|split; [|split]]].
  - unfold codec.GetName. rewrite Hname. exact Hin.
  - by apply (Get_Ok_cases G encoding).
  - reflexivity.
  - reflexivity.
  - intros ->. simpl in Hname. subst encoding.
    apply list_elem_of_In in Hin. simpl in Hin.
    repeat destruct Hin as [Hin|Hin]; try discriminate Hin. exact Hin.
Qed.

Lemma Get_never_returns_GPT2_witness :
  codec.NewLLama3Base sampleGenerated <> codec.NewGPT2Base sampleGenerated.
Proof.
  apply (Get_never_returns_GPT2 sampleGenerated OllamaLlamaBase). reflexivity.
Defined.

Lemma ForModelIn_phi3_forward G :
  ForModelIn G (map_to_list modelPrefixToEncoding) "phi3" = Ok (codec.NewLLama3Base G).
Proof.
  rewrite ForModelIn_default by (vm_compute; reflexivity).
  evaluate (firstPrefix (map_to_list modelPrefixToEncoding) "phi3"). reflexivity.
Qed.

Lemma ForModelIn_phi3_backward G :
  ForModelIn G (reverse (map_to_list modelPrefixToEncoding)) "phi3" =
  Ok (codec.NewR50kBase G).
Proof.
  rewrite ForModelIn_default by (vm_compute; reflexivity).
  evaluate (firstPrefix (reverse (map_to_list modelPrefixToEncoding)) "phi3"). reflexivity.
Qed.

Lemma llama_is_not_r50k G : Ok (codec.NewLLama3Base G) <> Ok (codec.NewR50kBase G).
Proof.
  intros Heq.
  apply (f_equal (fun r => match r with Ok c => codec.name c | Err _ => "" end)) in Heq.
  discriminate Heq.
Qed.

(** C4 -- [ForModel "phi3"] at work.  No clause of the exact-match tier has
    the label "phi3"; the keys "phi3" (llama) and "phi" (r50k_base) of the
    prefix map are both prefixes of it, and the loop returns on the one the
    map iteration visits first.  Both visiting orders are orders of the same
    map, so both codecs are results of the same call. *)
Theorem ForModel_phi3_two_results G :
  switchCase exactCases "phi3" = None /\
  modelPrefixToEncoding !! "phi3" = Some OllamaLlamaBase /\
  modelPrefixToEncoding !! "phi" = Some R50kBase /\
  ForModel G "phi3" (Ok (codec.NewLLama3Base G)) /\
  ForModel G "phi3" (Ok (codec.NewR50kBase G)) /\
  Ok (codec.NewLLama3Base G) <> Ok (codec.NewR50kBase G).
Proof.
  split; [vm_compute; reflexivity|].
  split; [vm_compute; reflexivity|].
  split; [vm_compute; reflexivity|].
  split; [|split].
  - exists (map_to_list modelPrefixToEncoding).
    split; [apply RangeOrder_map_to_list | apply ForModelIn_phi3_forward].
  - exists (reverse (map_to_list modelPrefixToEncoding)).
    split; [apply RangeOrder_reverse | apply ForModelIn_phi3_backward].
  - apply llama_is_not_r50k.
Qed.

(** ** Facts about the LLaMA3 special tokens *)

Lemma uint_int_wrap x : uint (int_wrap x) = uint x.
Proof.
  unfold uint, int_wrap.
  rewrite <- (Zminus_mod_idemp_l ((x + 2 ^ 63) mod 2 ^ 64)), Zmod_mod, Zminus_mod_idemp_l.
  f_equal. lia.
Qed.

Lemma uint_int_add a b : uint (a +i b) = uint (a + b).
Proof. apply uint_int_wrap. Qed.

Lemma uint_add_uint a b : uint (a + uint b) = uint (a + b).
Proof. unfold uint. apply Zplus_mod_idemp_r. Qed.

Lemma uint_add_int_wrap a b : uint (a + int_wrap b) = uint (a + b).
Proof. by rewrite <- uint_add_uint, uint_int_wrap, uint_add_uint. Qed.

Lemma uint_int_wrap_add a b : uint (int_wrap a + b) = uint (a + b).
Proof. rewrite (Z.add_comm (int_wrap a)), (Z.add_comm a). apply uint_add_int_wrap. Qed.

Lemma uint_small x : 0 <= x < 2 ^ 64 -> uint x = x.
Proof. apply Z.mod_small. Qed.

Lemma slot_offset n k : uint (n +i k) = slot n (uint (0 +i k)).
Proof.
  unfold slot. rewrite uint_add_uint, !uint_int_add, uint_add_int_wrap.
  f_equal; lia.
Qed.

Lemma slot_zero n : uint n = slot n (uint 0).
Proof. unfold slot. rewrite uint_add_uint. f_equal; lia. Qed.

Lemma llama3Defined_slots n :
  codec.llama3Defined n = slot n <$> codec.llama3Defined 0.
Proof.
  unfold codec.llama3Defined. rewrite <- list_to_map_fmap. f_equal.
  rewrite !(slot_offset n), (slot_zero n). reflexivity.
Qed.

Lemma forRange_fmap (f : Z -> Z) (k : nat)
  (body0 body : Z -> gmap string Z -> gmap string Z) (m : gmap string Z) :
  (forall i acc, body i (f <$> acc) = f <$> body0 i acc) ->
  forRange k body (f <$> m) = f <$> forRange k body0 m.
Proof.
  intros Hbody. unfold forRange. generalize (seq 0 k). intros l. revert m.
  induction l as [|i l IH]; intros m; simpl; [reflexivity|].
  rewrite Hbody. apply IH.
Qed.

Lemma llama3SpecialTokens_slots n :
  codec.llama3SpecialTokens n = slot n <$> codec.llama3SpecialTokens 0.
Proof.
  unfold codec.llama3SpecialTokens. rewrite llama3Defined_slots.
  apply forRange_fmap. intros i acc. rewrite fmap_insert. f_equal.
  unfold slot, int_add. change (int_wrap (0 + 12)) with 12.
  rewrite uint_add_uint, uint_add_int_wrap, uint_int_wrap, uint_int_wrap_add.
  f_equal; lia.
Qed.

Lemma NoDup_snd_inj {A B} (l : list (A * B)) x1 x2 y :
  NoDup (l.*2) -> (x1, y) ∈ l -> (x2, y) ∈ l -> x1 = x2.
Proof.
  induction l as [|[a b] l IH]; simpl; intros Hnd H1 H2.
  - inversion H1.
  - apply NoDup_cons in Hnd as [Hnotin Hnd].
    apply elem_of_cons in H1 as [H1|H1]; apply elem_of_cons in H2 as [H2|H2].
    + congruence.
    + injection H1 as -> ->. exfalso. apply Hnotin.
      apply list_elem_of_fmap. by exists (x2, b).
    + injection H2 as -> ->. exfalso. apply Hnotin.
      apply list_elem_of_fmap. by exists (x1, b).
    + eauto.
Qed.

(** Distinct values along the entries make the map injective. *)
Lemma map_values_inj {V} (m : gmap string V) s1 s2 v :
  NoDup ((map_to_list m).*2) -> m !! s1 = Some v -> m !! s2 = Some v -> s1 = s2.
Proof.
  intros Hnd H1 H2.
  apply (NoDup_snd_inj (map_to_list m) s1 s2 v Hnd); by apply elem_of_map_to_list.
Qed.

(** The offsets of the 256 slots, computed on the closed table. *)
Lemma llama3_offsets_size : size (codec.llama3SpecialTokens 0) = 256%nat.
Proof. vm_compute. reflexivity. Qed.

Lemma llama3_offsets_range s k :
  codec.llama3SpecialTokens 0 !! s = Some k -> 0 <= k <= 255.
Proof.
  intros Hk.
  apply (map_forallb _ (fun _ k => (0 <=? k) && (k <=? 255))) in Hk;
    [lia | vm_compute; reflexivity].
Qed.

Lemma llama3_offsets_cover :
  (fun l : list (string * Z) =>
     forallb (fun j => existsb (fun kv => kv.2 =? Z.of_nat j) l) (seq 0 256))
    (map_to_list (codec.llama3SpecialTokens 0)) = true.
Proof. vm_compute. reflexivity. Qed.

Lemma llama3_offsets_all k :
  0 <= k <= 255 -> exists s, codec.llama3SpecialTokens 0 !! s = Some k.
Proof.
  intros Hk.
  pose proof (proj1 (forallb_forall _ _) llama3_offsets_cover (Z.to_nat k)) as Hex.
  assert (Hin : In (Z.to_nat k) (seq 0 256)) by (apply in_seq; lia).
  apply Hex in Hin. clear Hex.
  apply existsb_exists in Hin as ([s j] & Hin & Hj).
  apply list_elem_of_In, elem_of_map_to_list in Hin.
  exists s. rewrite Hin. f_equal. apply Z.eqb_eq in Hj. simpl in Hj. lia.
Qed.

Lemma llama3_offsets_NoDup : NoDup ((map_to_list (codec.llama3SpecialTokens 0)).*2).
Proof. apply (bool_decide_eq_true_1 _). vm_compute. reflexivity. Qed.

(** C8 -- The special-token table of [NewLLama3Base] holds exactly 256
    literals.  For a vocabulary of [n] entries ([n] an [int]) their ids are
    exactly the values [n], ..., [n + 255], each id has one literal, and
    every id is above every rank of a vocabulary whose ranks are dense. *)
Theorem llama3_special_tokens G :
  let n := len (codec.llamaVocab G) in
  let special := codec.specialTokens (codec.NewLLama3Base G) in
  n < 2 ^ 63 ->
  (forall w r, codec.llamaVocab G !! w = Some r -> 0 <= r < n) ->
  size special = Z.to_nat codec.numReservedSpecialTokens /\
  size special = 256%nat /\
  (forall id, (exists s, special !! s = Some id) <-> n <= id <= n + 255) /\
  (forall s1 s2 id, special !! s1 = Some id -> special !! s2 = Some id -> s1 = s2) /\
  (forall s id w r, special !! s = Some id -> codec.llamaVocab G !! w = Some r -> r < id).
Proof.
  intros n special Hn Hdense.
  assert (Hn0 : 0 <= n) by (unfold n, len; lia).
  assert (Hspecial : special = slot n <$> codec.llama3SpecialTokens 0)
    by apply llama3SpecialTokens_slots.
  assert (Hslot : forall k, 0 <= k <= 255 -> slot n k = n + k).
  { intros k Hk. unfold slot. apply uint_small. lia. }
  assert (Hlook : forall s id, special !! s = Some id ->
            exists k, codec.llama3SpecialTokens 0 !! s = Some k /\ 0 <= k <= 255 /\ id = n + k).
  { intros s id. rewrite Hspecial, lookup_fmap.
    destruct (codec.llama3SpecialTokens 0 !! s) as [k|] eqn:Hk; simpl; [|discriminate].
    intros [= <-]. exists k. pose proof (llama3_offsets_range _ _ Hk).
    split; [reflexivity | split; [assumption | by apply Hslot]]. }
  assert (Hsize : size special = 256%nat)
    by (rewrite Hspecial, map_size_fmap; apply llama3_offsets_size).
  split; [exact Hsize | split; [exact Hsize | split; [|split]]].
  - intros id. split.
    + intros [s Hs]. destruct (Hlook _ _ Hs) as (k & _ & Hk & ->). lia.
    + intros Hid. destruct (llama3_offsets_all (id - n)) as [s Hs]; [lia|].
      exists s. rewrite Hspecial, lookup_fmap, Hs. simpl. rewrite Hslot by lia.
      f_equal. lia.
  - intros s1 s2 id H1 H2.
    destruct (Hlook _ _ H1) as (k1 & Hk1 & _ & ->).
    destruct (Hlook _ _ H2) as (k2 & Hk2 & _ & Heq).
    assert (k2 = k1) by lia. subst k2.
    exact (map_values_inj _ _ _ _ llama3_offsets_NoDup Hk1 Hk2).
  - intros s id w r Hs Hw. destruct (Hlook _ _ Hs) as (k & _ & Hk & ->).
    specialize (Hdense _ _ Hw). lia.
Qed.

Lemma sampleVocab_dense w r : sampleVocab !! w = Some r -> 0 <= r < len sampleVocab.
Proof.
  intros Hw.
  apply (map_forallb sampleVocab (fun _ r => (0 <=? r) && (r <? 259))) in Hw;
    [|vm_compute; reflexivity].
  change (len sampleVocab) with 259. lia.
Qed.

Lemma llama3_special_tokens_witness :
  size (codec.specialTokens (codec.NewLLama3Base sampleGenerated)) = 256%nat /\
  codec.specialTokens (codec.NewLLama3Base sampleGenerated) !! "<|image|>" = Some 270.
Proof.
  destruct (llama3_special_tokens sampleGenerated) as (_ & Hsize & _).
  - vm_compute. reflexivity.
  - apply sampleVocab_dense.
  - split; [exact Hsize | vm_compute; reflexivity].
Defined.

(** ** Facts about byte sequences *)

Lemma append_nil_r (s : string) : s +:+ "" = s.
Proof. induction s as [|c s IH]; [reflexivity|]. by rewrite append_cons, IH. Qed.

Lemma append_assoc (a b c : string) : (a +:+ b) +:+ c = a +:+ (b +:+ c).
Proof. induction a as [|x a IH]; [reflexivity|]. by rewrite !append_cons, IH. Qed.

Lemma length_append (a b : string) :
  String.length (a +:+ b) = (String.length a + String.length b)%nat.
Proof. induction a as [|x a IH]; [reflexivity|]. rewrite append_cons. simpl. by rewrite IH. Qed.

Lemma stake_sdrop n s : codec.stake n s +:+ codec.sdrop n s = s.
Proof.
  revert s. induction n as [|n IH]; intros [|c s]; simpl; try reflexivity.
  by rewrite append_cons, IH.
Qed.

Lemma length_sdrop n s :
  String.length (codec.sdrop n s) = (String.length s - n)%nat.
Proof. revert s. induction n as [|n IH]; intros [|c s]; simpl; auto. Qed.

Lemma sdrop_append (a rest : string) : codec.sdrop (String.length a) (a +:+ rest) = rest.
Proof. induction a as [|c a IH]; [by destruct rest|]. rewrite append_cons. simpl. exact IH. Qed.

Lemma joinAll_app l1 l2 : codec.joinAll (l1 ++ l2) = codec.joinAll l1 +:+ codec.joinAll l2.
Proof.
  induction l1 as [|a l1 IH]; simpl; [reflexivity|].
  by rewrite IH, append_assoc.
Qed.

Lemma joinAll_singletons s : codec.joinAll (codec.singletons s) = s.
Proof. induction s as [|c s IH]; simpl; [reflexivity|]. by rewrite IH. Qed.

(** ** Facts about the merge engine *)

Section merge.
Variable v : codec.vocab.

Lemma lowestPair_Some parts i best r j :
  codec.lowestPair v parts i best = Some (r, j) ->
  best = Some (r, j) \/
  exists a b, (i <= j)%nat /\ parts !! (j - i)%nat = Some a /\
              parts !! S (j - i) = Some b /\ codec.rankOf v (a +:+ b) = Some r.
Proof.
  revert i best. induction parts as [|a parts IH]; intros i best; simpl; [by left|].
  destruct parts as [|b rest]; [by left|].
  intros Hl. apply IH in Hl as [Hbest|(a' & b' & Hle & Ha & Hb & Hr)].
  - destruct (codec.rankOf v (a +:+ b)) as [r'|] eqn:Hr; [|by left].
    assert (Hhere : Some (r', i) = Some (r, j) ->
              best = Some (r, j) \/
              exists a0 b0, (i <= j)%nat /\ (a :: b :: rest) !! (j - i)%nat = Some a0 /\
                (a :: b :: rest) !! S (j - i) = Some b0 /\
                codec.rankOf v (a0 +:+ b0) = Some r).
    { intros [= -> ->]. right. exists a, b. rewrite Nat.sub_diag. auto. }
    destruct best as [[rb ib]|]; [|auto].
    destruct (r' <? rb); auto.
  - right. exists a', b'. replace (j - i)%nat with (S (j - S i)) by lia.
    split; [lia | auto].
Qed.

Lemma mergeAt_joinAll i parts :
  codec.joinAll (codec.mergeAt i parts) = codec.joinAll parts.
Proof.
  revert parts. induction i as [|i IH]; intros parts.
  - destruct parts as [|a [|b rest]]; simpl; try reflexivity. apply append_assoc.
  - destruct parts as [|a rest]; simpl; [reflexivity|]. by rewrite IH.
Qed.

Lemma mergeAt_ranked i parts a b :
  Forall (ranked v) parts -> parts !! i = Some a -> parts !! S i = Some b ->
  ranked v (a +:+ b) -> Forall (ranked v) (codec.mergeAt i parts).
Proof.
  revert parts. induction i as [|i IH]; intros parts Hall Ha Hb Hab.
  - destruct parts as [|x [|y rest]]; simpl in *; try discriminate.
    injection Ha as ->. injection Hb as ->.
    apply Forall_cons in Hall as [_ Hall]. apply Forall_cons in Hall as [_ Hall].
    by constructor.
  - destruct parts as [|x rest]; simpl in *; [discriminate|].
    apply Forall_cons in Hall as [Hx Hall]. constructor; [assumption|].
    by apply IH.
Qed.

Lemma mergeLoop_joinAll fuel parts :
  codec.joinAll (codec.mergeLoop v fuel parts) = codec.joinAll parts.
Proof.
  revert parts. induction fuel as [|fuel IH]; intros parts; simpl; [reflexivity|].
  destruct (codec.lowestPair v parts 0 None) as [[r i]|]; [|reflexivity].
  by rewrite IH, mergeAt_joinAll.
Qed.

Lemma mergeLoop_ranked fuel parts :
  Forall (ranked v) parts -> Forall (ranked v) (codec.mergeLoop v fuel parts).
Proof.
  revert parts. induction fuel as [|fuel IH]; intros parts Hall; simpl; [assumption|].
  destruct (codec.lowestPair v parts 0 None) as [[r i]|] eqn:Hl; [|assumption].
  apply IH. apply lowestPair_Some in Hl as [?|(a & b & _ & Ha & Hb & Hr)]; [discriminate|].
  rewrite Nat.sub_0_r in Ha, Hb.
  apply (mergeAt_ranked i parts a b); auto. unfold ranked. by rewrite Hr.
Qed.

Lemma length_mergeAt i parts :
  (S i < length parts)%nat -> length (codec.mergeAt i parts) = pred (length parts).
Proof.
  revert parts. induction i as [|i IH]; intros parts Hlen.
  - destruct parts as [|a [|b rest]]; simpl in *; lia.
  - destruct parts as [|a rest]; simpl in *; [lia|].
    rewrite IH by lia. destruct rest; simpl in *; lia.
Qed.

(** The rounds allowed suffice: the loop ends in a state in which no
    adjacent pair has a rank. *)
Lemma mergeLoop_terminal fuel parts :
  (length parts <= S fuel)%nat ->
  codec.lowestPair v (codec.mergeLoop v fuel parts) 0 None = None.
Proof.
  revert parts. induction fuel as [|fuel IH]; intros parts Hlen; simpl.
  - destruct parts as [|a [|b rest]]; simpl in *; [reflexivity | reflexivity | lia].
  - destruct (codec.lowestPair v parts 0 None) as [[r i]|] eqn:Hl; [|exact Hl].
    apply IH. apply lowestPair_Some in Hl as [?|(a & b & _ & Ha & Hb & _)]; [discriminate|].
    rewrite Nat.sub_0_r in Hb. apply lookup_lt_Some in Hb.
    rewrite length_mergeAt by assumption. lia.
Qed.

Lemma length_singletons chunk : length (codec.singletons chunk) = String.length chunk.
Proof. induction chunk as [|c s IH]; simpl; [reflexivity | by rewrite IH]. Qed.

Lemma mergeParts_terminal chunk :
  codec.lowestPair v (codec.mergeParts v chunk) 0 None = None.
Proof. apply mergeLoop_terminal. rewrite length_singletons. lia. Qed.

Hypothesis floor : forall c : ascii, is_Some (v !! String c "").

Lemma singletons_ranked chunk : Forall (ranked v) (codec.singletons chunk).
Proof. induction chunk as [|c s IH]; simpl; constructor; [apply floor | apply IH]. Qed.

Lemma mergeParts_joinAll chunk : codec.joinAll (codec.mergeParts v chunk) = chunk.
Proof. unfold codec.mergeParts. by rewrite mergeLoop_joinAll, joinAll_singletons. Qed.

(** With the single-byte floor every final part has a rank. *)
Lemma merge_Some chunk :
  exists ranks,
    codec.merge v chunk = Some ranks /\
    Forall2 (fun part r => v !! part = Some r) (codec.mergeParts v chunk) ranks.
Proof.
  unfold codec.merge.
  destruct (mapM (codec.rankOf v) (codec.mergeParts v chunk)) as [ranks|] eqn:Hm.
  - exists ranks. split; [reflexivity|]. by apply mapM_Some in Hm.
  - exfalso. assert (Hs : is_Some (mapM (codec.rankOf v) (codec.mergeParts v chunk))).
    { apply mapM_is_Some. unfold codec.mergeParts.
      apply (mergeLoop_ranked _ _ (singletons_ranked chunk)). }
    rewrite Hm in Hs. by destruct Hs.
Qed.
End merge.

(** ** Facts about the splitter and the special-token recogniser *)

Lemma eqb_empty_length (s : string) : String.eqb s "" = false -> (1 <= String.length s)%nat.
Proof. destruct s; simpl; [discriminate | lia]. Qed.

(** With a pattern that always advances, the chunks partition the text. *)
Lemma splitLoop_partition E pat fuel text :
  codec.PatternProgress E pat -> (String.length text <= fuel)%nat ->
  exists chunks, codec.splitLoop E pat fuel text = Ok chunks /\ codec.joinAll chunks = text.
Proof.
  intros Hprog. revert text. induction fuel as [|fuel IH]; intros text Hlen; simpl.
  - exists []. split; [reflexivity|]. destruct text; [reflexivity | simpl in Hlen; lia].
  - destruct (String.eqb_spec text "") as [->|Hne]; [by exists []|].
    destruct (Hprog text Hne) as (n & Hn & Hpos). rewrite Hn. simpl.
    destruct (IH (codec.sdrop n text)) as (chunks & Hchunks & Hjoin).
    { rewrite length_sdrop. destruct text; [done | simpl in *; lia]. }
    rewrite Hchunks. simpl. eexists. split; [reflexivity|].
    simpl. rewrite Hjoin. apply stake_sdrop.
Qed.

Lemma foldl_longer_In l best kv :
  foldl codec.longer best l = Some kv -> best = Some kv \/ In kv l.
Proof.
  revert best. induction l as [|x l IH]; intros best; simpl; [by left|].
  intros Hf. apply IH in Hf as [Hb|Hin]; [|by right; right].
  unfold codec.longer in Hb. destruct best as [[b idb]|].
  - destruct (String.length b <? String.length x.1)%nat.
    + injection Hb as ->. right. by left.
    + by left.
  - injection Hb as ->. right. by left.
Qed.

Lemma longestSpecial_Some special s lit id :
  codec.longestSpecial special s = Some (lit, id) ->
  special !! lit = Some id /\ (1 <= String.length lit)%nat /\ exists rest, s = lit +:+ rest.
Proof.
  unfold codec.longestSpecial. intros Hf.
  apply foldl_longer_In in Hf as [?|Hin]; [discriminate|].
  apply filter_In in Hin as [Hin Hp]. simpl in Hp.
  apply andb_prop in Hp as [Hne Hpre].
  apply list_elem_of_In, elem_of_map_to_list in Hin.
  split; [assumption | split].
  - apply eqb_empty_length. by apply negb_true_iff.
  - by apply (HasPrefix_spec s lit).
Qed.

Lemma flush_text plain : codec.joinAll (segmentText <$> codec.flush plain) = plain.
Proof.
  unfold codec.flush. destruct (String.eqb_spec plain "") as [->|_]; simpl; [reflexivity|].
  apply append_nil_r.
Qed.

Lemma flush_Ok special plain : Forall (segmentOk special) (codec.flush plain).
Proof. unfold codec.flush. destruct (String.eqb plain ""); repeat constructor. Qed.

Lemma recognizeLoop_text special fuel plain s :
  (String.length s <= fuel)%nat ->
  codec.joinAll (segmentText <$> codec.recognizeLoop special fuel plain s) = plain +:+ s.
Proof.
  revert plain s. induction fuel as [|fuel IH]; intros plain s Hlen.
  - destruct s; [|simpl in Hlen; lia]. simpl. by rewrite flush_text, append_nil_r.
  - destruct s as [|c s']; [simpl; by rewrite flush_text, append_nil_r|].
    cbn [codec.recognizeLoop].
    destruct (codec.longestSpecial special (String c s')) as [[lit id]|] eqn:Hl.
    + apply longestSpecial_Some in Hl as (_ & Hpos & rest & Hrest).
      rewrite fmap_app, joinAll_app, flush_text. f_equal.
      rewrite fmap_cons. simpl. rewrite IH.
      * rewrite append_nil_l, Hrest at 1. by rewrite sdrop_append.
      * rewrite length_sdrop. simpl in *. lia.
    + rewrite IH by (simpl in Hlen; lia). by rewrite append_assoc.
Qed.

Lemma recognizeLoop_Ok special fuel plain s :
  Forall (segmentOk special) (codec.recognizeLoop special fuel plain s).
Proof.
  revert plain s. induction fuel as [|fuel IH]; intros plain s.
  - destruct s; apply flush_Ok.
  - destruct s as [|c s']; [apply flush_Ok|].
    cbn [codec.recognizeLoop].
    destruct (codec.longestSpecial special (String c s')) as [[lit id]|] eqn:Hl.
    + apply longestSpecial_Some in Hl as (Hid & _).
      apply Forall_app. split; [apply flush_Ok|]. constructor; [exact Hid | apply IH].
    + apply IH.
Qed.

Lemma recognize_text special text :
  codec.joinAll (segmentText <$> codec.recognize special text) = text.
Proof. unfold codec.recognize. by rewrite recognizeLoop_text. Qed.

(** ** Facts about decoding *)

Lemma unique_values_NoDup (m : gmap string Z) :
  (forall s1 s2 r, m !! s1 = Some r -> m !! s2 = Some r -> s1 = s2) ->
  NoDup ((map_to_list m).*2).
Proof.
  intros Hu. apply NoDup_fmap_2_strong; [|apply NoDup_map_to_list].
  intros [s1 r1] [s2 r2] H1 H2 Heq. simpl in Heq. subst r2.
  apply elem_of_map_to_list in H1, H2. by rewrite (Hu _ _ _ H1 H2).
Qed.

Lemma inverse_lookup (m : gmap string Z) s r :
  (forall s1 s2 r, m !! s1 = Some r -> m !! s2 = Some r -> s1 = s2) ->
  m !! s = Some r -> codec.inverse m !! r = Some s.
Proof.
  intros Hu Hs. unfold codec.inverse. apply elem_of_list_to_map.
  - rewrite <- list_fmap_compose. exact (unique_values_NoDup m Hu).
  - apply list_elem_of_fmap. exists (s, r). split; [reflexivity|].
    by apply elem_of_map_to_list.
Qed.

Section decode.
Variable c : Codec.
Hypothesis vocabOk : codec.VocabularyOk (codec.vocabulary c).
Hypothesis specialOk : codec.SpecialTokensOk (codec.vocabulary c) (codec.specialTokens c).

Lemma decodeId_rank part r :
  codec.vocabulary c !! part = Some r -> codec.decodeId c r = Some part.
Proof.
  intros Hp. unfold codec.decodeId, codec.bytesOf.
  pose proof (codec.ranks_dense _ vocabOk _ _ Hp) as Hd.
  destruct (Z.ltb_spec r (len (codec.vocabulary c))); [|lia].
  by rewrite (inverse_lookup _ _ _ (codec.ranks_unique _ vocabOk) Hp).
Qed.

Lemma decodeId_special lit id :
  codec.specialTokens c !! lit = Some id -> codec.decodeId c id = Some lit.
Proof.
  intros Hl. unfold codec.decodeId.
  pose proof (codec.special_above _ _ specialOk _ _ Hl) as Ha.
  destruct (Z.ltb_spec id (len (codec.vocabulary c))); [lia|].
  exact (inverse_lookup _ _ _ (codec.special_unique _ _ specialOk) Hl).
Qed.

Lemma Decode_app ids1 ids2 s1 s2 :
  codec.Decode c ids1 = Ok s1 -> codec.Decode c ids2 = Ok s2 ->
  codec.Decode c (ids1 ++ ids2) = Ok (s1 +:+ s2).
Proof.
  revert s1. induction ids1 as [|id ids1 IH]; intros s1; simpl.
  - intros [= <-] H2. by rewrite H2.
  - destruct (codec.decodeId c id) as [s|]; [|discriminate].
    destruct (codec.Decode c ids1) as [out|] eqn:Hout; simpl; [|discriminate].
    intros [= <-] H2. rewrite (IH out eq_refl H2). simpl. by rewrite append_assoc.
Qed.

Lemma Decode_ranks parts ranks :
  Forall2 (fun part r => codec.vocabulary c !! part = Some r) parts ranks ->
  codec.Decode c ranks = Ok (codec.joinAll parts).
Proof.
  induction 1 as [|part r parts ranks Hp _ IH]; simpl; [reflexivity|].
  by rewrite (decodeId_rank _ _ Hp), IH.
Qed.
End decode.

(** ** Facts about the codec operations *)

Section count.
Variables (E : codec.engine) (c : Codec).
Hypothesis floor : forall ch : ascii, is_Some (codec.vocabulary c !! String ch "").

Lemma encodeChunks_count chunks :
  exists ids tokens,
    codec.encodeChunks (codec.vocabulary c) chunks = Ok (ids, tokens) /\
    Z.of_nat (length ids) = codec.countChunks (codec.vocabulary c) chunks.
Proof.
  induction chunks as [|chunk chunks (ids & tokens & Henc & Hlen)]; simpl.
  - by exists [], [].
  - destruct (merge_Some _ floor chunk) as (ranks & Hm & Hranks).
    rewrite Hm, Henc. simpl. eexists _, _. split; [reflexivity|].
    rewrite length_app, Nat2Z.inj_add, Hlen.
    by rewrite (Forall2_length _ _ _ Hranks).
Qed.

Lemma encodeSegment_count seg :
  countAgrees (codec.encodeSegment E c seg) (codec.countSegment E c seg).
Proof.
  destruct seg as [lit id|text]; simpl; [reflexivity|].
  destruct (codec.split E (codec.splitRegexp c) text) as [chunks|e]; simpl; [|reflexivity].
  destruct (encodeChunks_count chunks) as (ids & tokens & Henc & Hlen).
  rewrite Henc. simpl. by rewrite Hlen.
Qed.

Lemma encodeSegments_count segs :
  countAgrees (codec.encodeSegments E c segs) (codec.countSegments E c segs).
Proof.
  induction segs as [|seg segs IH]; simpl; [reflexivity|].
  pose proof (encodeSegment_count seg) as Hseg. unfold countAgrees in Hseg, IH.
  destruct (codec.encodeSegment E c seg) as [[ids1 tokens1]|e]; rewrite Hseg; simpl;
    [|reflexivity].
  destruct (codec.encodeSegments E c segs) as [[ids2 tokens2]|e]; rewrite IH; simpl;
    [|reflexivity].
  by rewrite length_app, Nat2Z.inj_add.
Qed.

End count.

Section roundtrip.
Variables (E : codec.engine) (c : Codec).
Hypothesis vocabOk : codec.VocabularyOk (codec.vocabulary c).
Hypothesis specialOk : codec.SpecialTokensOk (codec.vocabulary c) (codec.specialTokens c).
Hypothesis progress : codec.PatternProgress E (codec.splitRegexp c).

Lemma encodeChunks_Decode chunks :
  exists ids tokens,
    codec.encodeChunks (codec.vocabulary c) chunks = Ok (ids, tokens) /\
    codec.Decode c ids = Ok (codec.joinAll chunks).
Proof.
  induction chunks as [|chunk chunks (ids & tokens & Henc & Hdec)]; simpl.
  - by exists [], [].
  - destruct (merge_Some _ (codec.single_byte_floor _ vocabOk) chunk)
      as (ranks & Hm & Hranks).
    rewrite Hm, Henc. simpl. eexists _, _. split; [reflexivity|].
    apply Decode_app; [|exact Hdec].
    rewrite (Decode_ranks c vocabOk _ _ Hranks).
    by rewrite mergeParts_joinAll.
Qed.

Lemma encodeSegment_Decode seg :
  segmentOk (codec.specialTokens c) seg ->
  exists ids tokens,
    codec.encodeSegment E c seg = Ok (ids, tokens) /\
    codec.Decode c ids = Ok (segmentText seg).
Proof.
  destruct seg as [lit id|text]; simpl; intros Hok.
  - exists [id], [lit]. split; [reflexivity|]. simpl.
    rewrite (decodeId_special c specialOk _ _ Hok). simpl.
    by rewrite append_nil_r.
  - unfold codec.split.
    destruct (splitLoop_partition E _ (String.length text) text progress (le_n _))
      as (chunks & Hsplit & Hjoin).
    rewrite Hsplit. simpl. rewrite <- Hjoin. apply encodeChunks_Decode.
Qed.

Lemma encodeSegments_Decode segs :
  Forall (segmentOk (codec.specialTokens c)) segs ->
  exists ids tokens,
    codec.encodeSegments E c segs = Ok (ids, tokens) /\
    codec.Decode c ids = Ok (codec.joinAll (segmentText <$> segs)).
Proof.
  induction 1 as [|seg segs Hseg _ (ids2 & tokens2 & Henc2 & Hdec2)]; simpl.
  - by exists [], [].
  - destruct (encodeSegment_Decode seg Hseg) as (ids1 & tokens1 & Henc1 & Hdec1).
    rewrite Henc1, Henc2. simpl. eexists _, _. split; [reflexivity|].
    by apply Decode_app.
Qed.

End roundtrip.

(** C1 -- Round trip.  For a codec that [Get] returns for a supported
    encoding family, whose vocabulary and special tokens satisfy the
    invariants of the data model and whose pattern always matches at least
    one byte, [Encode] succeeds on every text and [Decode] of the ids it
    produces is the text. *)
Theorem Decode_Encode_roundtrip E G encoding c text :
  Get G encoding = Ok c ->
  codec.VocabularyOk (codec.vocabulary c) ->
  codec.SpecialTokensOk (codec.vocabulary c) (codec.specialTokens c) ->
  codec.PatternProgress E (codec.splitRegexp c) ->
  exists ids tokens,
    codec.Encode E c text = Ok (ids, tokens) /\ codec.Decode c ids = Ok text.
Proof.
  intros _ Hv Hs Hp. unfold codec.Encode.
  destruct (encodeSegments_Decode E c Hv Hs Hp
              (codec.recognize (codec.specialTokens c) text))
    as (ids & tokens & Henc & Hdec).
  - apply recognizeLoop_Ok.
  - exists ids, tokens. split; [exact Henc|].
    rewrite Hdec. f_equal. apply recognize_text.
Qed.

(** C2 -- Count consistency.  For a codec that [Get] returns for a supported
    encoding family and whose vocabulary has every single byte, [Count]
    returns the length of the id sequence of [Encode] on the same text, and
    fails exactly as [Encode] fails. *)
Theorem Count_is_length_of_Encode E G encoding c text :
  Get G encoding = Ok c ->
  (forall ch : ascii, is_Some (codec.vocabulary c !! String ch "")) ->
  match codec.Encode E c text with
  | Ok (ids, _) => codec.Count E c text = Ok (Z.of_nat (length ids))
  | Err e => codec.Count E c text = Err e
  end.
Proof.
  intros _ Hfloor. unfold codec.Encode, codec.Count.
  pose proof (encodeSegments_count E c Hfloor
                (codec.recognize (codec.specialTokens c) text)) as Hagree.
  unfold countAgrees in Hagree.
  destruct (codec.encodeSegments E c (codec.recognize (codec.specialTokens c) text))
    as [[ids tokens]|e]; exact Hagree.
Qed.

(** The sample data satisfies the invariants. *)
Lemma sampleVocab_floor_check :
  (fun m : codec.vocab =>
     forallb (fun i => match m !! String (ascii_of_nat i) "" with
                       | Some _ => true
                       | None => false
                       end) (seq 0 256)) sampleVocab = true.
Proof. vm_compute. reflexivity. Qed.

Lemma sampleVocab_floor (ch : ascii) : is_Some (sampleVocab !! String ch "").
Proof.
  pose proof (proj1 (forallb_forall _ _) sampleVocab_floor_check (nat_of_ascii ch)) as Hc.
  cbv beta in Hc. rewrite ascii_nat_embedding in Hc.
  destruct (sampleVocab !! String ch "") as [r|]; [by exists r|].
  exfalso. assert (false = true); [|discriminate].
  apply Hc. apply in_seq. pose proof (nat_ascii_bounded ch). lia.
Qed.

Lemma sampleVocab_NoDup : NoDup ((map_to_list sampleVocab).*2).
Proof. apply (bool_decide_eq_true_1 _). vm_compute. reflexivity. Qed.

Lemma sampleVocab_Ok : codec.VocabularyOk sampleVocab.
Proof.
  split.
  - apply sampleVocab_floor.
  - intros s1 s2 r. apply map_values_inj, sampleVocab_NoDup.
  - apply sampleVocab_dense.
Qed.

Lemma sampleFamily_special_Ok :
  codec.SpecialTokensOk sampleVocab (codec.familySpecialTokens sampleFamily).
Proof.
  split; simpl.
  - intros s id Hs. apply lookup_singleton_Some in Hs as [_ <-].
    change (len sampleVocab) with 259. lia.
  - intros s1 s2 id H1 H2.
    apply lookup_singleton_Some in H1 as [<- _].
    by apply lookup_singleton_Some in H2 as [<- _].
Qed.

Lemma sampleEngine_progress pat : codec.PatternProgress sampleEngine pat.
Proof. intros [|ch s] Hne; [done|]. eexists. split; [reflexivity | lia]. Qed.

Lemma Decode_Encode_roundtrip_witness :
  exists ids tokens,
    codec.Encode sampleEngine (codec.NewR50kBase sampleGenerated)
      "hello <|endoftext|> hell" = Ok (ids, tokens) /\
    codec.Decode (codec.NewR50kBase sampleGenerated) ids = Ok "hello <|endoftext|> hell".
Proof.
  apply (Decode_Encode_roundtrip sampleEngine sampleGenerated R50kBase).
  - reflexivity.
  - apply sampleVocab_Ok.
  - apply sampleFamily_special_Ok.
  - apply sampleEngine_progress.
Defined.

Lemma Count_is_length_of_Encode_witness :
  match codec.Encode sampleEngine (codec.NewR50kBase sampleGenerated)
          "hello <|endoftext|> hell" with
  | Ok (ids, _) =>
      codec.Count sampleEngine (codec.NewR50kBase sampleGenerated)
        "hello <|endoftext|> hell" = Ok (Z.of_nat (length ids))
  | Err e =>
      codec.Count sampleEngine (codec.NewR50kBase sampleGenerated)
        "hello <|endoftext|> hell" = Err e
  end.
Proof.
  apply (Count_is_length_of_Encode sampleEngine sampleGenerated R50kBase).
  - reflexivity.
  - apply sampleVocab_floor.
Defined.

(** ** Facts about [Count] *)

Lemma ratioLoop_firstPrefix ratios model count :
  ratioLoop ratios model count =
  match firstPrefix ratios model with
  | Some (_, ratio) => int_of_float64 (float64_of_int count * ratio)
  | None => count
  end.
Proof.
  induction ratios as [|[p ratio] rest IH]; simpl; [reflexivity|].
  destruct (HasPrefix model p); [reflexivity | apply IH].
Qed.

Lemma CountIn_Ok E G order ratios model input enc count :
  ForModelIn G order model = Ok enc ->
  codec.Count E enc input = Ok count ->
  CountIn E G order ratios model input = Ok (ratioLoop ratios model count).
Proof. intros Hm Hc. unfold CountIn. by rewrite Hm, Hc. Qed.

(** C5 -- [Count model input], for a model that resolves to a codec whose
    count of the input is [count].  When some key of [Ratios] is a prefix of
    the model name, the result is [count] multiplied by the ratio of such a
    key (the one the loop meets first), as the [int] of the [float64]
    product.  When no key of [Ratios] is a prefix of the model name, the
    result is [count] unchanged. *)
Theorem Count_applies_ratio E G (Ratios : gmap string float) order ratios
  model input enc count :
  RangeOrder Ratios ratios ->
  ForModelIn G order model = Ok enc ->
  codec.Count E enc input = Ok count ->
  ((exists prefix ratio, Ratios !! prefix = Some ratio /\ HasPrefix model prefix = true) ->
   exists prefix ratio,
     Ratios !! prefix = Some ratio /\ HasPrefix model prefix = true /\
     CountIn E G order ratios model input =
       Ok (int_of_float64 (float64_of_int count * ratio))) /\
  ((forall prefix ratio, Ratios !! prefix = Some ratio -> HasPrefix model prefix = false) ->
   CountIn E G order ratios model input = Ok count).
Proof.
  intros Hr Hm Hc.
  rewrite (CountIn_Ok _ _ _ ratios _ _ _ _ Hm Hc), ratioLoop_firstPrefix.
  split.
  - intros (prefix & ratio & Hk & Hp).
    destruct (firstPrefix ratios model) as [[p r]|] eqn:Hf.
    + apply firstPrefix_Some in Hf as [Hin Hpre].
      exists p, r. split; [by apply (RangeOrder_elem Ratios ratios) | by split].
    + exfalso. rewrite firstPrefix_None in Hf.
      assert (HasPrefix model prefix = false); [|congruence].
      apply (Hf prefix ratio). by apply (RangeOrder_elem Ratios ratios).
  - intros Hnone.
    replace (firstPrefix ratios model) with (@None (string * float)); [reflexivity|].
    symmetry. apply firstPrefix_None. intros prefix ratio Hin.
    apply (Hnone prefix ratio). by apply (RangeOrder_elem Ratios ratios).
Qed.

Lemma Count_applies_ratio_witness :
  CountIn sampleEngine sampleGenerated (map_to_list modelPrefixToEncoding)
    (map_to_list sampleRatios) "claude-opus-4-1" "hello hello world" = Ok 16 /\
  CountIn sampleEngine sampleGenerated (map_to_list modelPrefixToEncoding)
    (map_to_list sampleRatios) "gpt-4" "hello hello world" = Ok 11.
Proof.
  split.
  - destruct (Count_applies_ratio sampleEngine sampleGenerated sampleRatios
                (map_to_list modelPrefixToEncoding) (map_to_list sampleRatios)
                "claude-opus-4-1" "hello hello world"
                (codec.NewCl100kBase sampleGenerated) 11) as [Hscaled _].
    + apply RangeOrder_map_to_list.
    + rewrite ForModelIn_default by (vm_compute; reflexivity).
      evaluate (firstPrefix (map_to_list modelPrefixToEncoding) "claude-opus-4-1").
      reflexivity.
    + vm_compute. reflexivity.
    + destruct Hscaled as (prefix & ratio & Hk & _ & ->).
      * exists "claude-", 1.5%float. split; reflexivity.
      * unfold sampleRatios in Hk. apply lookup_singleton_Some in Hk as [_ <-].
        vm_compute. reflexivity.
  - refine (proj2 (Count_applies_ratio sampleEngine sampleGenerated sampleRatios
                (map_to_list modelPrefixToEncoding) (map_to_list sampleRatios)
                "gpt-4" "hello hello world"
                (codec.NewCl100kBase sampleGenerated) 11 _ _ _) _).
    + apply RangeOrder_map_to_list.
    + reflexivity.
    + vm_compute. reflexivity.
    + intros prefix ratio Hk. unfold sampleRatios in Hk.
      by apply lookup_singleton_Some in Hk as [<- _].
Defined.

(** Without a matching key of [Ratios], every result of [Count] is the
    count of the codec the model resolved to, or the failure on the way. *)
Lemma Count_without_ratio E G (Ratios : gmap string float) model input r :
  (forall prefix ratio, Ratios !! prefix = Some ratio -> HasPrefix model prefix = false) ->
  Count E G Ratios model input r ->
  exists order,
    RangeOrder modelPrefixToEncoding order /\
    r = (enc ← ForModelIn G order model; codec.Count E enc input).
Proof.
  intros Hnone (order & ratios & Ho & Hr & <-). exists order. split; [exact Ho|].
  unfold CountIn. destruct (ForModelIn G order model) as [enc|e]; simpl; [|reflexivity].
  destruct (codec.Count E enc input) as [count|e]; [|reflexivity].
  rewrite ratioLoop_firstPrefix.
  replace (firstPrefix ratios model) with (@None (string * float)); [reflexivity|].
  symmetry. apply firstPrefix_None. intros prefix ratio Hin.
  apply (Hnone prefix ratio). by apply (RangeOrder_elem Ratios ratios).
Qed.

(** The merge engine on the sample vocabulary: "he" and "ll" merge first,
    then "hell". *)
Example mergeParts_hello : codec.mergeParts sampleVocab "hello" = ["hell"; "o"].
Proof. vm_compute. reflexivity. Qed.

Example merge_hello : codec.merge sampleVocab "hello" = Some [258; 111].
Proof. vm_compute. reflexivity. Qed.

(** ** Further facts about model resolution *)

Lemma RangeOrder_front {V} (m : gmap string V) k v :
  m !! k = Some v -> RangeOrder m ((k, v) :: map_to_list (delete k m)).
Proof.
  intros Hk. unfold RangeOrder.
  rewrite <- (map_to_list_insert (delete k m) k v) by apply lookup_delete_eq.
  by rewrite insert_delete_id.
Qed.

Lemma firstPrefix_head {V} (rest : list (string * V)) model prefix v :
  HasPrefix model prefix = true -> firstPrefix ((prefix, v) :: rest) model = Some (prefix, v).
Proof. intros Hp. simpl. by rewrite Hp. Qed.

(** X1 -- The results of [ForModel] on a model that no clause of the
    exact-match tier has: [Get] of the encoding of any key of the prefix map
    that is a prefix of the model (each such key can be the one the loop
    meets first), and the error "model not supported" exactly when no key is
    a prefix of the model. *)
Theorem ForModel_results G model :
  switchCase exactCases model = None ->
  forall r,
    ForModel G model r <->
    (exists prefix enc,
        modelPrefixToEncoding !! prefix = Some enc /\
        HasPrefix model prefix = true /\ r = Get G enc) \/
    ((forall prefix enc,
        modelPrefixToEncoding !! prefix = Some enc -> HasPrefix model prefix = false) /\
     r = Err ErrModelNotSupported).
Proof.
  intros Hs r. split.
  - intros (order & Ho & <-). rewrite ForModelIn_default by assumption.
    destruct (firstPrefix order model) as [[prefix enc]|] eqn:Hf.
    + left. apply firstPrefix_Some in Hf as [Hin Hp]. exists prefix, enc.
      split; [by apply (RangeOrder_elem _ order) | by split].
    + right. split; [|reflexivity]. intros prefix enc Hk.
      apply (proj1 (firstPrefix_None order model) Hf prefix enc).
      by apply (RangeOrder_elem modelPrefixToEncoding order).
  - intros [(prefix & enc & Hk & Hp & ->)|[Hnone ->]].
    + exists ((prefix, enc) :: map_to_list (delete prefix modelPrefixToEncoding)).
      split; [by apply RangeOrder_front|].
      rewrite ForModelIn_default by assumption. by rewrite firstPrefix_head.
    + by apply ForModel_unresolvable.
Qed.

Lemma ForModel_results_witness :
  ForModel sampleGenerated "nemotron-mini:4b" (Get sampleGenerated OllamaLlamaBase) /\
  ForModel sampleGenerated "nemotron-mini:4b" (Get sampleGenerated R50kBase).
Proof.
  assert (Hs : switchCase exactCases "nemotron-mini:4b" = None) by (vm_compute; reflexivity).
  split; apply (proj2 (ForModel_results sampleGenerated _ Hs _)); left.
  - exists "nemotron", OllamaLlamaBase.
    split; [vm_compute; reflexivity | split; reflexivity].
  - exists "nemotron-mini", R50kBase.
    split; [vm_compute; reflexivity | split; reflexivity].
Defined.

(** X2 -- When all keys of the prefix map that are prefixes of the model
    name the same encoding, and the exact-match tier has no clause for the
    model, every call of [ForModel] returns [Get] of that encoding. *)
Theorem ForModel_unambiguous G model prefix enc :
  switchCase exactCases model = None ->
  modelPrefixToEncoding !! prefix = Some enc ->
  HasPrefix model prefix = true ->
  (forall prefix' enc',
     modelPrefixToEncoding !! prefix' = Some enc' ->
     HasPrefix model prefix' = true -> enc' = enc) ->
  forall r, ForModel G model r <-> r = Get G enc.
Proof.
  intros Hs Hk Hp Hsame r. split.
  - intros (order & Ho & <-). rewrite ForModelIn_default by assumption.
    destruct (firstPrefix order model) as [[prefix' enc']|] eqn:Hf.
    + apply firstPrefix_Some in Hf as [Hin Hp'].
      apply (proj1 (RangeOrder_elem _ order _ _ Ho)) in Hin.
      by rewrite (Hsame _ _ Hin Hp').
    + exfalso. assert (HasPrefix model prefix = false); [|congruence].
      apply (proj1 (firstPrefix_None order model) Hf prefix enc).
      by apply (RangeOrder_elem modelPrefixToEncoding order).
  - intros ->. exists (map_to_list modelPrefixToEncoding).
    split; [apply RangeOrder_map_to_list|].
    rewrite ForModelIn_default by assumption.
    destruct (firstPrefix (map_to_list modelPrefixToEncoding) model)
      as [[prefix' enc']|] eqn:Hf.
    + apply firstPrefix_Some in Hf as [Hin Hp'].
      apply elem_of_map_to_list in Hin. by rewrite (Hsame _ _ Hin Hp').
    + exfalso. assert (HasPrefix model prefix = false); [|congruence].
      apply (proj1 (firstPrefix_None _ model) Hf prefix enc).
      by apply elem_of_map_to_list.
Qed.

Lemma ForModel_unambiguous_witness :
  ForModel sampleGenerated "llama3.2-vision:11b" (Get sampleGenerated OllamaLlamaBase).
Proof.
  refine (proj2 (ForModel_unambiguous sampleGenerated "llama3.2-vision:11b" "llama3"
                   OllamaLlamaBase _ _ _ _ _) eq_refl).
  - vm_compute. reflexivity.
  - vm_compute. reflexivity.
  - reflexivity.
  - intros prefix' enc' Hk Hp.
    apply (map_forallb modelPrefixToEncoding
             (fun k v => implb (HasPrefix "llama3.2-vision:11b" k)
                           (String.eqb v OllamaLlamaBase))) in Hk;
      [|vm_compute; reflexivity].
    rewrite Hp in Hk. by apply String.eqb_eq in Hk.
Defined.

Lemma switchCase_In cases model enc :
  switchCase cases model = Some enc -> exists labels, In (labels, enc) cases.
Proof.
  induction cases as [|[labels e] rest IH]; simpl; [discriminate|].
  destruct (existsb (String.eqb model) labels).
  - intros [= ->]. exists labels. by left.
  - intros Hs. destruct (IH Hs) as [labels' Hin]. exists labels'. by right.
Qed.

Lemma Get_of_supported G enc :
  enc ∈ supportedEncodings ->
  exists c, Get G enc = Ok c /\
    c ∈ [codec.NewO200kBase G; codec.NewCl100kBase G; codec.NewR50kBase G;
         codec.NewP50kBase G; codec.NewP50kEdit G; codec.NewLLama3Base G].
Proof.
  intros Hin. apply list_elem_of_In in Hin. simpl in Hin.
  destruct Hin as [<-|[<-|[<-|[<-|[<-|[<-|[]]]]]]];
    (eexists; split; [reflexivity | apply list_elem_of_In; simpl; tauto]).
Qed.

Lemma tables_name_supported_encodings prefix enc :
  modelPrefixToEncoding !! prefix = Some enc -> enc ∈ supportedEncodings.
Proof.
  intros Hk.
  apply (map_forallb modelPrefixToEncoding
           (fun _ v => existsb (String.eqb v) supportedEncodings)) in Hk;
    [|vm_compute; reflexivity].
  apply existsb_exists in Hk as (e & Hin & He). apply String.eqb_eq in He. subst e.
  by apply list_elem_of_In.
Qed.

(** X3 -- [ForModel] never fails with "encoding not supported": every
    encoding that a clause of the switch or an entry of a table passes to
    [Get] is one [Get] has a clause for.  In every visiting order the result
    is the codec of one of the six families or the error "model not
    supported". *)
Theorem ForModel_codec_or_unsupported_model G order model :
  RangeOrder modelPrefixToEncoding order ->
  (exists c,
      ForModelIn G order model = Ok c /\
      c ∈ [codec.NewO200kBase G; codec.NewCl100kBase G; codec.NewR50kBase G;
           codec.NewP50kBase G; codec.NewP50kEdit G; codec.NewLLama3Base G]) \/
  ForModelIn G order model = Err ErrModelNotSupported.
Proof.
  intros Ho. unfold ForModelIn.
  destruct (switchCase exactCases model) as [enc|] eqn:Hs.
  - left. apply Get_of_supported.
    apply switchCase_In in Hs as [labels Hin]. simpl in Hin.
    apply list_elem_of_In. unfold supportedEncodings. simpl.
    destruct Hin as [[= _ <-]|[[= _ <-]|[[= _ <-]|[[= _ <-]|[[= _ <-]|[]]]]]]; tauto.
  - rewrite prefixLoop_firstPrefix.
    destruct (firstPrefix order model) as [[prefix enc]|] eqn:Hf; [|by right].
    left. apply Get_of_supported. apply firstPrefix_Some in Hf as [Hin _].
    apply (tables_name_supported_encodings prefix).
    by apply (RangeOrder_elem modelPrefixToEncoding order).
Qed.

Lemma ForModel_codec_or_unsupported_model_witness :
  (exists c,
      ForModelIn sampleGenerated (reverse (map_to_list modelPrefixToEncoding))
        "qwen2.5-coder:7b" = Ok c /\
      c ∈ [codec.NewO200kBase sampleGenerated; codec.NewCl100kBase sampleGenerated;
           codec.NewR50kBase sampleGenerated; codec.NewP50kBase sampleGenerated;
           codec.NewP50kEdit sampleGenerated; codec.NewLLama3Base sampleGenerated]) \/
  ForModelIn sampleGenerated (reverse (map_to_list modelPrefixToEncoding))
    "qwen2.5-coder:7b" = Err ErrModelNotSupported.
Proof.
  apply ForModel_codec_or_unsupported_model. apply RangeOrder_reverse.
Defined.

(** ** Further facts about the merged prefix map *)

(** X4 -- [buildModelPrefixToEncoding] gives the same map in whatever order
    each of its fourteen loops visits its table. *)
Theorem buildModelPrefixToEncoding_any_order (orders : list (list (string * string))) :
  Forall2 RangeOrder priorityTables orders ->
  foldl (fun result order => mergeInto order result) ∅ orders =
  buildModelPrefixToEncoding.
Proof.
  unfold buildModelPrefixToEncoding. generalize (∅ : gmap string string).
  generalize priorityTables. intros tables acc Hall. revert acc.
  induction Hall as [|table order tables orders Ho _ IH]; intros acc; simpl;
    [reflexivity|].
  rewrite (mergeInto_RangeOrder table acc order Ho).
  rewrite (mergeInto_RangeOrder table acc (map_to_list table)
             (RangeOrder_map_to_list table)).
  apply IH.
Qed.

Lemma buildModelPrefixToEncoding_any_order_witness :
  foldl (fun result order => mergeInto order result) ∅
    ((fun table => reverse (map_to_list table)) <$> priorityTables) =
  buildModelPrefixToEncoding.
Proof.
  apply buildModelPrefixToEncoding_any_order.
  apply Forall2_fmap_r, Forall_Forall2_diag, Forall_forall.
  intros table _. apply RangeOrder_reverse.
Defined.

(** X5 -- One merge loop, looked up: a key of the table merged gets the
    value of that table, also when [result] held the key before; every
    other key keeps what [result] held. *)
Theorem mergeInto_lookup (table result : gmap string string) order k :
  RangeOrder table order ->
  mergeInto order result !! k =
  match table !! k with
  | Some v => Some v
  | None => result !! k
  end.
Proof.
  intros Ho. rewrite (mergeInto_RangeOrder table result order Ho).
  destruct (table !! k) as [v|] eqn:Hk.
  - by apply lookup_union_Some_l.
  - by apply lookup_union_r.
Qed.

Lemma mergeInto_lookup_witness :
  mergeInto (map_to_list smallModels) phiModels !! "phi3" = Some OllamaLlamaBase /\
  mergeInto (map_to_list smallModels) phiModels !! "tinyllama" = Some R50kBase.
Proof.
  split.
  - rewrite (mergeInto_lookup smallModels phiModels _ "phi3"
               (RangeOrder_map_to_list smallModels)).
    vm_compute. reflexivity.
  - rewrite (mergeInto_lookup smallModels phiModels _ "tinyllama"
               (RangeOrder_map_to_list smallModels)).
    vm_compute. reflexivity.
Defined.

Lemma merged_entries_in_tables :
  (fun tables : list (gmap string string) =>
     forallb (fun kv => existsb (fun table => bool_decide (table !! kv.1 = Some kv.2)) tables)
       (map_to_list modelPrefixToEncoding)) priorityTables = true.
Proof. vm_compute. reflexivity. Qed.

Lemma table_entries_in_merged :
  (fun merged : gmap string string =>
     forallb (fun table =>
                forallb (fun kv => bool_decide (merged !! kv.1 = Some kv.2))
                  (map_to_list table)) priorityTables) modelPrefixToEncoding = true.
Proof. vm_compute. reflexivity. Qed.

(** X6 -- The merged prefix map holds exactly the entries of the fourteen
    tables: merging loses no entry and changes the encoding of none. *)
Theorem modelPrefixToEncoding_content prefix enc :
  modelPrefixToEncoding !! prefix = Some enc <->
  exists table, table ∈ priorityTables /\ table !! prefix = Some enc.
Proof.
  split.
  - intros Hk. apply elem_of_map_to_list, list_elem_of_In in Hk.
    pose proof (proj1 (forallb_forall _ _) merged_entries_in_tables _ Hk) as Hex.
    cbv beta in Hex. apply existsb_exists in Hex as (table & Hin & Ht).
    exists table. split; [by apply list_elem_of_In|].
    by apply bool_decide_eq_true_1 in Ht.
  - intros (table & Hin & Hk). apply list_elem_of_In in Hin.
    pose proof (proj1 (forallb_forall _ _) table_entries_in_merged _ Hin) as Hall.
    cbv beta in Hall. apply elem_of_map_to_list, list_elem_of_In in Hk.
    pose proof (proj1 (forallb_forall _ _) Hall _ Hk) as Hm.
    by apply bool_decide_eq_true_1 in Hm.
Qed.

(** ** Further facts about [Count] *)

(** X7 -- Failures of [Count].  The error of [ForModel] and the error of the
    codec's own [Count] are returned as they are, and no ratio is applied.
    For a model that neither tier resolves, [Count] fails with "model not
    supported" on every input, whatever [Ratios] holds. *)
Theorem Count_failures E G (Ratios : gmap string float) model input :
  (forall order ratios e,
     ForModelIn G order model = Err e ->
     CountIn E G order ratios model input = Err e) /\
  (forall order ratios enc e,
     ForModelIn G order model = Ok enc -> codec.Count E enc input = Err e ->
     CountIn E G order ratios model input = Err e) /\
  (switchCase exactCases model = None ->
   (forall prefix enc,
      modelPrefixToEncoding !! prefix = Some enc -> HasPrefix model prefix = false) ->
   forall r, Count E G Ratios model input r <-> r = Err ErrModelNotSupported).
Proof.
  split; [|split].
  - intros order ratios e Hm. unfold CountIn. by rewrite Hm.
  - intros order ratios enc e Hm Hc. unfold CountIn. by rewrite Hm, Hc.
  - intros Hs Hnone r.
    assert (Hin : forall order ratios, RangeOrder modelPrefixToEncoding order ->
              CountIn E G order ratios model input = Err ErrModelNotSupported).
    { intros order ratios Ho. unfold CountIn.
      replace (ForModelIn G order model) with (@Err Codec ErrModelNotSupported);
        [reflexivity|].
      symmetry. apply (ForModel_unresolvable G model Hs Hnone). by exists order. }
    split.
    + intros (order & ratios & Ho & _ & <-). by apply Hin.
    + intros ->. exists (map_to_list modelPrefixToEncoding), (map_to_list Ratios).
      split; [apply RangeOrder_map_to_list|].
      split; [apply RangeOrder_map_to_list | apply Hin, RangeOrder_map_to_list].
Qed.

Lemma Count_failures_witness :
  Count sampleEngine sampleGenerated sampleRatios "gemini-1.5-pro" "hello"
    (Err ErrModelNotSupported).
Proof.
  refine (proj2 (proj2 (proj2 (Count_failures sampleEngine sampleGenerated sampleRatios
                                 "gemini-1.5-pro" "hello")) _ _ _) eq_refl).
  - vm_compute. reflexivity.
  - apply no_prefix_of. vm_compute. reflexivity.
Defined.

(** ** Further facts about the LLaMA3 special tokens *)

Lemma llama3_reserved_check :
  (fun T : gmap string Z =>
     forallb (fun j => bool_decide
                (T !! reservedName (Z.of_nat j) = Some (reservedOffset (Z.of_nat j))))
       (seq 0 246)) (codec.llama3SpecialTokens 0) = true.
Proof. vm_compute. reflexivity. Qed.

(** X8 -- The numbered reserved slots of [NewLLama3Base].  For a vocabulary
    of [n] entries the literal "<|reserved_special_token_k|>" has the id
    [n + 2 + k] for [k] = 0, 1 and [n + 10 + k] for [k] = 2, ..., 245: the
    numbering of the names is not the numbering of the ids. *)
Theorem llama3_reserved_slots G k :
  len (codec.llamaVocab G) < 2 ^ 63 ->
  0 <= k <= 245 ->
  codec.specialTokens (codec.NewLLama3Base G) !! reservedName k =
  Some (len (codec.llamaVocab G) + reservedOffset k).
Proof.
  intros Hn Hk.
  change (codec.specialTokens (codec.NewLLama3Base G))
    with (codec.llama3SpecialTokens (len (codec.llamaVocab G))).
  rewrite llama3SpecialTokens_slots, lookup_fmap.
  pose proof (proj1 (forallb_forall _ _) llama3_reserved_check (Z.to_nat k)) as Hc.
  cbv beta in Hc. rewrite Z2Nat.id in Hc by lia.
  apply bool_decide_eq_true_1 in Hc; [|apply in_seq; lia].
  rewrite Hc. cbn [fmap option_fmap option_map]. f_equal. unfold slot. apply uint_small.
  assert (0 <= len (codec.llamaVocab G)) by (unfold len; lia).
  unfold reservedOffset. destruct (k <? 2); lia.
Qed.

Lemma llama3_reserved_slots_witness :
  codec.specialTokens (codec.NewLLama3Base sampleGenerated)
    !! "<|reserved_special_token_245|>" = Some 514 /\
  codec.specialTokens (codec.NewLLama3Base sampleGenerated)
    !! "<|reserved_special_token_1|>" = Some 262.
Proof.
  split.
  - apply (llama3_reserved_slots sampleGenerated 245); [vm_compute; reflexivity | lia].
  - apply (llama3_reserved_slots sampleGenerated 1); [vm_compute; reflexivity | lia].
Defined.

Lemma llama3_defined_check :
  (fun T : gmap string Z =>
     forallb (fun kv => bool_decide (T !! kv.1 = Some kv.2))
       (map_to_list (codec.llama3Defined 0))) (codec.llama3SpecialTokens 0) = true.
Proof. vm_compute. reflexivity. Qed.

(** X9 -- The loop of [NewLLama3Base] overwrites none of the twelve literal
    entries: every literal of the map it starts from has the same id in the
    final table, for every size of the vocabulary. *)
Theorem llama3_defined_tokens_kept n lit id :
  codec.llama3Defined n !! lit = Some id ->
  codec.llama3SpecialTokens n !! lit = Some id.
Proof.
  rewrite llama3Defined_slots, llama3SpecialTokens_slots, !lookup_fmap.
  destruct (codec.llama3Defined 0 !! lit) as [k|] eqn:Hk;
    cbn [fmap option_fmap option_map]; [|discriminate].
  intros [= <-].
  apply elem_of_map_to_list, list_elem_of_In in Hk.
  pose proof (proj1 (forallb_forall _ _) llama3_defined_check _ Hk) as Hc.
  cbv beta in Hc. apply bool_decide_eq_true_1 in Hc. cbn [fst snd] in Hc.
  by rewrite Hc.
Qed.

Lemma llama3_defined_tokens_kept_witness :
  codec.llama3SpecialTokens 259 !! "<|eot_id|>" = Some 268.
Proof. apply llama3_defined_tokens_kept. vm_compute. reflexivity. Defined.

(** ** Facts about the test helpers *)

Lemma sliceEqualLoop_drop a i b :
  length b = (i + length a)%nat ->
  tokenizer_test.sliceEqualLoop i a b = Some (bool_decide (a = drop i b)).
Proof.
  revert i. induction a as [|elem rest IH]; intros i Hlen; simpl in *.
  - rewrite drop_ge by lia. by rewrite bool_decide_eq_true_2.
  - destruct (lookup_lt_is_Some_2 b i) as [x Hx]; [lia|].
    rewrite Hx, (drop_S _ _ _ Hx).
    destruct (Z.eqb_spec elem x) as [->|Hne]; simpl.
    + rewrite IH by lia. f_equal. apply bool_decide_ext.
      split; [by intros -> | by intros [= ->]].
    + f_equal. symmetry. apply bool_decide_eq_false_2. by intros [= ?].
Qed.

Lemma sliceEqual_decides a b :
  tokenizer_test.sliceEqual a b = Some (bool_decide (a = b)).
Proof.
  unfold tokenizer_test.sliceEqual.
  destruct (Z.eqb_spec (Z.of_nat (length a)) (Z.of_nat (length b))) as [Hlen|Hlen]; simpl.
  - rewrite sliceEqualLoop_drop by lia. by rewrite drop_0.
  - f_equal. symmetry. apply bool_decide_eq_false_2. intros ->. by apply Hlen.
Qed.

(** X10 -- [sliceEqual] decides equality of slices: it returns true exactly
    on equal slices, false exactly on different ones, and its index
    expression [b[i]] is never out of range. *)
Theorem sliceEqual_spec a b :
  (tokenizer_test.sliceEqual a b = Some true <-> a = b) /\
  (tokenizer_test.sliceEqual a b = Some false <-> a <> b) /\
  tokenizer_test.sliceEqual a b <> None.
Proof.
  rewrite sliceEqual_decides. split; [|split].
  - split; [intros [= H]; by apply bool_decide_eq_true_1 in H|].
    intros ->. by rewrite bool_decide_eq_true_2.
  - split; [intros [= H]; by apply bool_decide_eq_false_1 in H|].
    intros Hne. by rewrite bool_decide_eq_false_2.
  - discriminate.
Qed.

(** X11 -- One subtest of [runTests] on a codec whose [Decode] inverts its
    [Encode] on the text of the test case and whose [Count] is the number
    of ids of [Encode]: the subtest reports nothing exactly when [Encode]
    returns the expected ids.  The decoding and the counting check add no
    condition of their own. *)
Theorem subtest_passes_iff (tok : tokenizer_test.Codec) (test : tokenizer_test.testCase) :
  (forall got tokens,
     tokenizer_test.Encode tok (tokenizer_test.text test) = Ok (got, tokens) ->
     tokenizer_test.Decode tok got = Ok (tokenizer_test.text test)) ->
  (forall got tokens,
     tokenizer_test.Encode tok (tokenizer_test.text test) = Ok (got, tokens) ->
     tokenizer_test.Count tok (tokenizer_test.text test) = Ok (Z.of_nat (length got))) ->
  tokenizer_test.subtest tok test = [] <->
  exists tokens,
    tokenizer_test.Encode tok (tokenizer_test.text test) =
    Ok (tokenizer_test.ids test, tokens).
Proof.
  intros Hdec Hcnt. unfold tokenizer_test.subtest.
  destruct (tokenizer_test.Encode tok (tokenizer_test.text test))
    as [[got tokens]|err] eqn:Henc.
  - rewrite sliceEqual_decides, (Hdec got tokens eq_refl), (Hcnt got tokens eq_refl).
    rewrite String.eqb_refl. simpl.
    destruct (decide (got = tokenizer_test.ids test)) as [->|Hne].
    + rewrite bool_decide_eq_true_2 by reflexivity. rewrite Z.eqb_refl. simpl.
      split; [by exists tokens | reflexivity].
    + rewrite bool_decide_eq_false_2 by assumption. simpl.
      split; [discriminate | intros [tokens' [= ? ?]]; contradiction].
  - split; [discriminate | intros [tokens' ?]; discriminate].
Qed.

Lemma subtest_passes_iff_witness :
  tokenizer_test.subtest
    (asInterface sampleEngine (codec.NewR50kBase sampleGenerated))
    {| tokenizer_test.text := "hello <|endoftext|> hell";
       tokenizer_test.ids := [258; 111; 32; 259; 32; 258] |} = [].
Proof.
  apply subtest_passes_iff.
  - intros got tokens Henc. vm_compute in Henc. injection Henc as <- <-.
    vm_compute. reflexivity.
  - intros got tokens Henc. vm_compute in Henc. injection Henc as <- <-.
    vm_compute. reflexivity.
  - eexists. vm_compute. reflexivity.
Defined.

(** ** Facts about [readEnvFile] *)

Lemma readEnvLoop_app T l1 l2 env :
  tokenizer_test.readEnvLoop T (l1 ++ l2) env =
  match tokenizer_test.readEnvLoop T l1 env with
  | Ok env' => tokenizer_test.readEnvLoop T l2 env'
  | Err err => Err err
  end.
Proof.
  revert env. induction l1 as [|raw l1 IH]; intros env; simpl; [reflexivity|].
  destruct (String.eqb (T raw) "" || HasPrefix (T raw) "#"); [apply IH|].
  destruct (cutByte "=" (T raw)) as [[key value]|]; [apply IH | reflexivity].
Qed.

Lemma cutByte_first sep (before after : string) :
  cutByte sep before = None ->
  cutByte sep (before +:+ String sep after) = Some (before, after).
Proof.
  induction before as [|c before IH]; intros Hnone.
  - rewrite append_nil_l. simpl. by rewrite Ascii.eqb_refl.
  - rewrite append_cons. simpl in *.
    destruct (Ascii.eqb c sep); [discriminate|].
    destruct (cutByte sep before) as [[? ?]|]; [discriminate|].
    by rewrite IH.
Qed.

(** X12 -- [readEnvFile] skips a line that is empty after trimming or that
    starts with "#": the loop gives the same result with and without it. *)
Theorem readEnvLoop_skips T l1 raw l2 env :
  T raw = "" \/ HasPrefix (T raw) "#" = true ->
  tokenizer_test.readEnvLoop T (l1 ++ raw :: l2) env =
  tokenizer_test.readEnvLoop T (l1 ++ l2) env.
Proof.
  intros Hskip. rewrite !readEnvLoop_app.
  destruct (tokenizer_test.readEnvLoop T l1 env) as [env'|err]; [|reflexivity].
  simpl. destruct Hskip as [Hskip | Hskip]; rewrite Hskip; [reflexivity|].
  by rewrite orb_true_r.
Qed.

Lemma readEnvLoop_skips_witness :
  tokenizer_test.readEnvLoop (fun s => s) (["A=1"] ++ "# note" :: ["B=2"]) ∅ =
  tokenizer_test.readEnvLoop (fun s => s) (["A=1"] ++ ["B=2"]) ∅.
Proof. apply readEnvLoop_skips. right. reflexivity. Defined.

(** X13 -- An assignment line of the env file.  When the file ends with a
    line that trims to [key=value], with no "=" in [key] and no "#" at its
    head, and the lines before it give the map [env], [readEnvFile] returns
    [env] with [key] set to [value]: the last assignment of a key stands,
    and the value is everything after the first "=". *)
Theorem readEnvFile_assignment T open path lines raw key value env :
  open path = Ok (lines ++ [raw], None) ->
  tokenizer_test.readEnvLoop T lines ∅ = Ok env ->
  T raw = key +:+ String "=" value ->
  cutByte "=" key = None ->
  HasPrefix key "#" = false ->
  tokenizer_test.readEnvFile T open path = Ok (<[key := value]> env) /\
  forall env', tokenizer_test.readEnvFile T open path = Ok env' ->
               env' !! key = Some value.
Proof.
  intros Hopen Hlines Hraw Hkey Hhash.
  assert (Hread : tokenizer_test.readEnvFile T open path = Ok (<[key := value]> env)).
  { unfold tokenizer_test.readEnvFile. rewrite Hopen, readEnvLoop_app, Hlines. simpl.
    rewrite Hraw, (cutByte_first _ _ _ Hkey).
    replace (String.eqb (key +:+ String "=" value) "" ||
             HasPrefix (key +:+ String "=" value) "#") with false; [reflexivity|].
    symmetry. apply orb_false_iff. split.
    - destruct key; reflexivity.
    - destruct (HasPrefix (key +:+ String "=" value) "#") eqn:Hp; [|reflexivity].
      exfalso. apply HasPrefix_spec in Hp as [rest Hrest].
      rewrite append_cons, append_nil_l in Hrest.
      destruct key as [|c key].
      + rewrite append_nil_l in Hrest. discriminate.
      + rewrite append_cons in Hrest. injection Hrest as -> _.
        assert (HasPrefix (String "#" key) "#" = true)
          by (apply HasPrefix_spec; by exists key).
        congruence. }
  split; [exact Hread|].
  intros env' Henv. rewrite Hread in Henv. injection Henv as <-.
  apply lookup_insert_eq.
Qed.

Lemma readEnvFile_assignment_witness :
  tokenizer_test.readEnvFile (fun s => s)
    (fun _ => Ok (["ANTHROPIC_API_KEY=old"] ++ ["ANTHROPIC_API_KEY=k=v"], None)) ".env" =
  Ok (<[ "ANTHROPIC_API_KEY" := "k=v" ]> {[ "ANTHROPIC_API_KEY" := "old" ]}).
Proof.
  refine (proj1 (readEnvFile_assignment (fun s => s) _ ".env"
                   ["ANTHROPIC_API_KEY=old"] "ANTHROPIC_API_KEY=k=v"
                   "ANTHROPIC_API_KEY" "k=v" _ _ _ _ _ _));
    reflexivity.
Defined.

(** X14 -- A line of the env file without "=".  When the lines before it
    are read without error and the line is neither empty after trimming nor
    a comment, [readEnvFile] returns the error that names the line and no
    map, whatever follows the line and also when the scanner stopped on an
    error of its own. *)
Theorem readEnvFile_invalid_line T open path lines raw rest scanErr env :
  open path = Ok (lines ++ raw :: rest, scanErr) ->
  tokenizer_test.readEnvLoop T lines ∅ = Ok env ->
  T raw <> "" ->
  HasPrefix (T raw) "#" = false ->
  cutByte "=" (T raw) = None ->
  tokenizer_test.readEnvFile T open path =
  Err (errors_New ("invalid line in env file: " +:+ T raw)).
Proof.
  intros Hopen Hlines Hne Hhash Hcut.
  unfold tokenizer_test.readEnvFile. rewrite Hopen, readEnvLoop_app, Hlines. simpl.
  rewrite Hhash, Hcut. by destruct (String.eqb_spec (T raw) "").
Qed.

Lemma readEnvFile_invalid_line_witness :
  tokenizer_test.readEnvFile (fun s => s)
    (fun _ => Ok (["A=1"] ++ "oops" :: ["B=2"], Some (errors_New "token too long")))
    ".env" =
  Err (errors_New "invalid line in env file: oops").
Proof.
  refine (readEnvFile_invalid_line (fun s => s) _ ".env" ["A=1"] "oops" ["B=2"]
            (Some (errors_New "token too long")) _ _ _ _ _ _);
    first [reflexivity | discriminate].
Defined.

(** ** Facts about the vocabulary generator *)

(** The encodings [getConfig] knows, with their configurations. *)
Lemma getConfig_Returns encoding c :
  vocab.getConfig encoding = vocab.Returns c ->
  In (encoding, (vocab.mapName c, vocab.filename c))
    [ ("o200k_base", ("o200kBaseVocab", "o200k_base_vocab.go"));
      ("cl100k_base", ("cl100kBaseVocab", "cl100k_base_vocab.go"));
      ("r50k_base", ("r50kBaseVocab", "r50k_base_vocab.go"));
      ("p50k_base", ("p50kBaseVocab", "p50k_base_vocab.go"));
      ("llama", ("llamaBaseVocab", "llama_base_vocab.go"));
      ("gpt2", ("gpt2BaseVocab", "gpt2_base_vocab.go"));
      ("anthropic", ("anthropicVocab", "anthropic_base_vocab.go")) ].
Proof.
  unfold vocab.getConfig.
  repeat (case_switch; [intros Hc; injection Hc as <-; simpl; tauto |]).
  discriminate.
Qed.

(** X15 -- [getConfig] gives different encodings different file names and
    different map names: no two runs of the generator for different
    encodings write the same file or declare the same table. *)
Theorem getConfig_separates e1 e2 c1 c2 :
  vocab.getConfig e1 = vocab.Returns c1 ->
  vocab.getConfig e2 = vocab.Returns c2 ->
  vocab.filename c1 = vocab.filename c2 \/ vocab.mapName c1 = vocab.mapName c2 ->
  e1 = e2.
Proof.
  intros H1 H2 Heq.
  apply getConfig_Returns in H1, H2.
  destruct c1 as [u1 m1 f1], c2 as [u2 m2 f2]. simpl in *.
  repeat (destruct H1 as [H1|H1]; [injection H1 as <- <- <-|]); try contradiction;
    (repeat (destruct H2 as [H2|H2]; [injection H2 as <- <- <-|]); try contradiction;
     first [reflexivity | destruct Heq as [Heq|Heq]; discriminate Heq]).
Qed.

Lemma getConfig_separates_witness :
  vocab.getConfig "llama" =
    vocab.Returns
      {| vocab.mapName := "llamaBaseVocab";
         vocab.url := "https://raw.githubusercontent.com/meta-llama/llama-models/refs/heads/main/models/llama3/tokenizer.model";
         vocab.filename := "llama_base_vocab.go" |} /\
  "llama" = "llama".
Proof.
  split; [reflexivity|].
  eapply (getConfig_separates "llama" "llama"); [reflexivity | reflexivity | by left].
Defined.

(** X16 -- The version header of the vocabulary source.  The loop of
    [generateVocabulary] drops the first line that contains "#version",
    wherever it stands, and only that line: the lines before and after it,
    later lines with "#version" among them, are all read as entries. *)
Theorem scanLoop_header L l1 header l2 :
  Forall (fun line => Contains line "#version" = false) l1 ->
  Contains header "#version" = true ->
  vocab.scanLoop L true (l1 ++ header :: l2) = vocab.scanLoop L false (l1 ++ l2).
Proof.
  intros Hl1 Hh. induction Hl1 as [|line l1 Hline _ IH]; simpl.
  - by rewrite Hh.
  - rewrite Hline. simpl. by rewrite IH.
Qed.

Lemma scanLoop_header_witness :
  vocab.scanLoop sampleLibrary true (["IQ== 0"] ++ "# #version: 1" :: ["Ig== 1"]) =
  vocab.scanLoop sampleLibrary false (["IQ== 0"] ++ ["Ig== 1"]).
Proof.
  apply scanLoop_header; [repeat constructor | reflexivity].
Defined.

Lemma joinAll_entryLine L word id rest :
  codec.joinAll (entryLine L (word, id) :: rest) =
  vocab.quote L word +:+ ": " +:+ itoa id +:+ "," +:+ nl +:+ codec.joinAll rest.
Proof. unfold entryLine, codec.joinAll. simpl. by rewrite !append_assoc. Qed.

(** X17 -- The entries [generateVocabulary] writes.  Read as entries, the
    lines give an output exactly when every line has a space, a word the
    decoder accepts before it and an id the parser accepts after it; the
    output is then one line per input line, in the order of the input. *)
Theorem scanLoop_entries L lines out :
  vocab.scanLoop L false lines = vocab.Returns out <->
  exists entries,
    Forall2 (parsesTo L) lines entries /\
    out = codec.joinAll (entryLine L <$> entries).
Proof.
  revert out. induction lines as [|line lines IH]; intros out; simpl.
  - split.
    + intros [= <-]. exists []. split; [constructor | reflexivity].
    + intros (entries & Hall & ->). by inversion Hall.
  - split.
    + destruct (cutByte " " line) as [[wordInput idInput]|] eqn:Hcut; [|discriminate].
      destruct (vocab.DecodeString L wordInput) as [word|] eqn:Hword; [|discriminate].
      destruct (vocab.ParseUint L idInput) as [id|] eqn:Hid; [|discriminate].
      destruct (vocab.scanLoop L false lines) as [rest|msg] eqn:Hrest; [|discriminate].
      simpl. intros [= <-].
      destruct (proj1 (IH rest) eq_refl) as (entries & Hall & ->).
      exists ((word, id) :: entries). split.
      * constructor; [|exact Hall]. by exists wordInput, idInput.
      * rewrite fmap_cons. symmetry. apply joinAll_entryLine.
    + intros (entries & Hall & ->).
      inversion Hall as [|? [word id] ? entries' (wordInput & idInput & Hcut & Hword & Hid)
                           Hall']; subst.
      simpl in Hword, Hid. rewrite Hcut, Hword, Hid.
      rewrite (proj2 (IH (codec.joinAll (entryLine L <$> entries')))) by eauto.
      rewrite fmap_cons. simpl. f_equal. symmetry. apply joinAll_entryLine.
Qed.

(** X18 -- Every model constant that the package declares is a label of a
    clause of the switch in [ForModel]: for each of them [ForModel] returns
    a codec, the same in every visiting order of the prefix map. *)
Theorem declared_models_resolve G model :
  model ∈ declaredModels ->
  exists enc c,
    switchCase exactCases model = Some enc /\
    Get G enc = Ok c /\
    forall r, ForModel G model r <-> r = Ok c.
Proof.
  intros Hin.
  assert (Hall : forallb (fun m => match switchCase exactCases m with
                                   | Some enc => existsb (String.eqb enc) supportedEncodings
                                   | None => false
                                   end) declaredModels = true)
    by (vm_compute; reflexivity).
  apply list_elem_of_In in Hin.
  pose proof (proj1 (forallb_forall _ _) Hall _ Hin) as Hm. cbv beta in Hm.
  destruct (switchCase exactCases model) as [enc|] eqn:Hs; [|discriminate].
  apply existsb_exists in Hm as (e & He & Heq). apply String.eqb_eq in Heq. subst e.
  destruct (Get_of_supported G enc) as (c & Hget & _); [by apply list_elem_of_In|].
  exists enc, c. split; [reflexivity | split; [exact Hget|]].
  assert (Hevery : forall order, ForModelIn G order model = Ok c).
  { intros order. unfold ForModelIn. by rewrite Hs. }
  intros r. split.
  - intros (order & _ & <-). apply Hevery.
  - intros ->. exists (map_to_list modelPrefixToEncoding).
    split; [apply RangeOrder_map_to_list | apply Hevery].
Qed.

Lemma declared_models_resolve_witness :
  exists enc c,
    switchCase exactCases TextEmbeddingAda002 = Some enc /\
    Get sampleGenerated enc = Ok c /\
    forall r, ForModel sampleGenerated TextEmbeddingAda002 r <-> r = Ok c.
Proof.
  apply declared_models_resolve. apply list_elem_of_In. vm_compute. tauto.
Defined.

(** The generator on two lines of a vocabulary source. *)
Example scanLoop_two_lines :
  vocab.scanLoop sampleLibrary true ["# #version: 1"; "IQ== 0"; "Ig== 1"] =
  vocab.Returns (dquote +:+ "IQ==" +:+ dquote +:+ ": 0," +:+ nl +:+
                 dquote +:+ "Ig==" +:+ dquote +:+ ": 1," +:+ nl).
Proof. vm_compute. reflexivity. Qed.

(** ** Table priority in model resolution *)








